(** * thermal_processor: a shallow embedding of the per-frame pipeline

    The development follows [thermal_processor.py] (and, for the argument
    sanitising done by the HTTP layer, [app.py]).

    Numbers.  Python [int]s are [Z].  Python and numpy floats are modelled
    in three ways, chosen by what is being proved:
    - configuration values, scores and thresholds are rationals ([Q]):
      every operation applied to them in the source is a field operation,
      a comparison or a truncation, so the model computes;
    - the score-to-temperature map raises to a real power, so
      temperatures are real numbers ([R]);
    - two statements are about exact equality of binary32 values; for
      these the arithmetic is IEEE-754 binary32, bit for bit (module
      [F32], built on the Standard Library's [SpecFloat]).
    Rounding is modelled in [F32] only; NaN and infinities are not values
    of [Q] or [R]. *)

From Stdlib Require Import ZArith QArith Qminmax Qround Qreals.
From Stdlib Require Import Reals Lia.
From Stdlib Require Lqa Lra.
From Stdlib Require Import Strings.Ascii Strings.String Strings.Byte.
From Stdlib Require Import DecimalString.
From Stdlib Require Import List Bool Permutation Sorted.
From Stdlib Require Import Floats.SpecFloat.
Import ListNotations.

Set Implicit Arguments.

(** Linear arithmetic over the rationals and over the reals. *)
Ltac lraQ := Lqa.lra.
Ltac lraR := Lra.lra.
Ltac nraR := Lra.nra.

(* ================================================================== *)
(** * Part I.  The embedding                                           *)
(* ================================================================== *)

(** ** Shared numeric helpers *)

(** [np.clip(x, lo, hi)] is [minimum(maximum(x, lo), hi)]. *)
Definition clip (x lo hi : Q) : Q := Qmin (Qmax x lo) hi.

(** Python's [int(x)] on a float truncates toward zero. *)
Definition int_of (q : Q) : Z := Z.quot (Qnum q) (Zpos (Qden q)).

(** ** Command line ([parse_args]) *)

Inductive Stat := stat_avg | stat_max.

(** The namespace returned by [argparse]; the initial record is the typed
    result of [parser.parse_known_args()] (defaults already filled in). *)
Record Args := mkArgs {
  input : String.string;
  output : String.string;
  pLow : Q;
  pHigh : Q;
  gamma : Q;
  alpha : Q;
  stat : Stat;
  ambient : Q;
  maxC : Q;
  ema : Q;
  summary_json : option String.string;
  preview : bool;
  no_overlay : bool
}.

(** The values [argparse] yields when no option is given. *)
Definition default_args (i o : String.string) : Args :=
  {| input := i; output := o;
     pLow := 0.80; pHigh := 0.98; gamma := 1.2; alpha := 0.6;
     stat := stat_avg; ambient := 22; maxC := 120; ema := 0;
     summary_json := None; preview := false; no_overlay := false |}.

(** The "sécurisation" block of [parse_args]: [pLow], [pHigh], [alpha] and
    [ema] are clipped, [pHigh] is bumped when it does not exceed [pLow];
    [gamma], [ambient] and [maxC] are passed on as parsed. *)
Definition parse_args (a : Args) : Args :=
  let pLow' := clip (pLow a) 0 0.999 in
  let pHigh' := clip (pHigh a) 0 0.999 in
  let pHigh'' :=
    if Qle_bool pHigh' pLow' then Qmin (pLow' + 0.01) 0.999 else pHigh' in
  {| input := input a; output := output a;
     pLow := pLow'; pHigh := pHigh'';
     gamma := gamma a;
     alpha := clip (alpha a) 0 1;
     stat := stat a; ambient := ambient a; maxC := maxC a;
     ema := clip (ema a) 0 1;
     summary_json := summary_json a;
     preview := preview a; no_overlay := no_overlay a |}.

(** *** The HTTP layer's sanitising ([app.py], [upload]) *)

(** [_clamp(x, lo, hi)] is [max(lo, min(hi, x))]. *)
Definition _clamp (x lo hi : Q) : Q := Qmax lo (Qmin hi x).

(** The form values after [_as_float], turned into the options handed to
    the processor: [--pLow], [--pHigh], [--gamma], [--alpha]. *)
Record Form := mkForm {
  form_pLow : Q; form_pHigh : Q; form_gamma : Q; form_alpha : Q
}.

Definition upload (f : Form) (a : Args) : Args :=
  let p_low := _clamp (form_pLow f) 0 0.999 in
  let p_high := _clamp (form_pHigh f) 0 0.999 in
  let p_high' :=
    if Qle_bool p_high p_low then Qmin (p_low + 0.01) 0.999 else p_high in
  {| input := input a; output := output a;
     pLow := p_low; pHigh := p_high';
     gamma := _clamp (form_gamma f) 0.1 6.0;
     alpha := _clamp (form_alpha f) 0 1;
     stat := stat a; ambient := ambient a; maxC := maxC a;
     ema := ema a;
     summary_json := summary_json a;
     preview := preview a; no_overlay := no_overlay a |}.

(** ** Dynamic range normalisation (inside [process_video]) *)

(** [np.sort]: ascending order. *)
Fixpoint insert_asc (x : Q) (l : list Q) : list Q :=
  match l with
  | [] => [x]
  | y :: t => if Qle_bool x y then x :: l else y :: insert_asc x t
  end.

Definition sort_asc (l : list Q) : list Q := fold_right insert_asc [] l.

(** [max(0, min(idx, size - 1))]. *)
Definition clamp_index (idx size : Z) : Z := Z.max 0 (Z.min idx (size - 1)).

(** The pair [(p_low_val, p_high_val)] as it stands after the
    [if p_high_val <= p_low_val] repair; [flat] is the flattened smoothed
    score map. *)
Definition percentile_values (p_low p_high : Q) (flat : list Q) : Q * Q :=
  let size := Z.of_nat (length flat) in
  let raw :=
    if (0 <? size)%Z then
      let flat_sorted := sort_asc flat in
      let idx_low := clamp_index (int_of (p_low * inject_Z (size - 1))) size in
      let idx_high := clamp_index (int_of (p_high * inject_Z (size - 1))) size in
      (nth (Z.to_nat idx_low) flat_sorted 0, nth (Z.to_nat idx_high) flat_sorted 0)
    else (0, 1) in
  let p_low_val := fst raw in
  let p_high_val := snd raw in
  if Qle_bool p_high_val p_low_val
  then (p_low_val, p_low_val + 0.000001)
  else (p_low_val, p_high_val).

(** One entry of [t = np.clip((heat_used - lo) / (hi - lo), 0, 1)]. *)
Definition normalize (p_low_val p_high_val v : Q) : Q :=
  clip ((v - p_low_val) / (p_high_val - p_low_val)) 0 1.

(** ** Thermal model ([heat_score], [score_to_temp]) *)

(** A BGR pixel of a [uint8] frame, and a frame as rows of pixels. *)
Definition Pixel : Type := byte * byte * byte.
Definition Frame : Type := list (list Pixel).

(** [frame.astype(np.float32) / 255.0], one channel. *)
Definition channel (v : byte) : Q := inject_Z (Z.of_N (Byte.to_N v)) / 255.

Definition heat_score_px (px : Pixel) : Q :=
  let '(b8, g8, r8) := px in
  let b := channel b8 in
  let g := channel g8 in
  let r := channel r8 in
  let luma := 0.2126 * r + 0.7152 * g + 0.0722 * b in
  let red_dom := r / (g + b + 0.0001) in
  let warm_boost := Qmax (r - Qmax g b) 0 in
  let cmax := Qmax (Qmax r g) b in
  let cmin := Qmin (Qmin r g) b in
  let sat := (cmax - cmin) / (cmax + 0.000001) in
  let score := luma * (0.5 + 0.5 * sat) * (0.5 + 0.5 * red_dom) + warm_boost in
  clip score 0 1.

Definition heat_score (frame_bgr : Frame) : list (list Q) :=
  map (map heat_score_px) frame_bgr.

(** [np.clip] on reals. *)
Definition clipR (x lo hi : R) : R := Rmin (Rmax x lo) hi.

(** [x ** g] for [x >= 0]: [0 ** 0] is [1], [0 ** g] is [0] for positive
    [g], and [x ** g] is [exp (g * ln x)] for positive [x].  (numpy gives
    [inf] for zero raised to a negative power; this value is not in [R]
    and the model is never evaluated there.) *)
Definition npow (x g : R) : R :=
  if Req_dec_T x 0 then (if Req_dec_T g 0 then 1 else 0) else Rpower x g.

(** The map over the reals; the source evaluates it in floating point,
    and the rounding of that evaluation is not part of this definition. *)
Definition score_to_temp (score ambient maxC gamma : R) : R :=
  let sc := npow (clipR score 0 1) gamma in
  (ambient + (maxC - ambient) * sc)%R.

(** ** Hotspots ([find_hotspots_from_thr]) *)

Record Hotspot := mkHotspot {
  box_x : Z;
  box_y : Z;
  box_w : Z;
  box_h : Z;
  pixels : Z;
  meanScore : Q;
  tempC : R
}.

(** [m[r][c]], with [d] outside the array (never read there by the
    source; it makes the accessor total). *)
Definition at2 {A} (d : A) (m : list (list A)) (r c : nat) : A :=
  nth c (nth r m []) d.

(** [heat_map.shape] *)
Definition shape {A} (m : list (list A)) : nat * nat :=
  (length m, length (hd [] m)).

(** All positions of an [H] by [W] array, row by row. *)
Definition positions (H W : nat) : list (nat * nat) :=
  list_prod (seq 0 H) (seq 0 W).

(** [(heat_map >= thr).astype(np.uint8)] *)
Definition mask_of (heat_map : list (list Q)) (thr : Q) : list (list bool) :=
  map (map (fun v => Qle_bool thr v)) heat_map.

Definition count_nonzero (mask : list (list bool)) : nat :=
  length (filter (fun b : bool => b) (concat mask)).

(** OpenCV's [connectedComponentsWithStats(mask, connectivity=8)] is a
    library call.  The label image it returns is kept abstract: a
    labelling maps the mask to [(num_labels, labels)], label [0] being the
    background.  The statistics are computed from the label image as
    OpenCV defines them: leftmost column, topmost row, horizontal and
    vertical extent of the bounding box, and number of pixels. *)
Definition Labelling : Type := list (list bool) -> nat * list (list nat).

Definition component (labels : list (list nat)) (H W label : nat)
  : list (nat * nat) :=
  filter (fun p => at2 0%nat labels (fst p) (snd p) =? label)%nat (positions H W).

Definition min_of (l : list nat) : nat :=
  match l with [] => 0%nat | a :: t => fold_right Nat.min a t end.

Definition max_of (l : list nat) : nat := fold_right Nat.max 0%nat l.

(** [stats[label]]: [(x, y, w, h, area)]. *)
Definition stats_of (px : list (nat * nat)) : Z * Z * Z * Z * Z :=
  let cols := map snd px in
  let rows := map fst px in
  (Z.of_nat (min_of cols), Z.of_nat (min_of rows),
   Z.of_nat (max_of cols - min_of cols + 1),
   Z.of_nat (max_of rows - min_of rows + 1),
   Z.of_nat (length px)).

(** [ndarray.mean()] *)
Definition mean (l : list Q) : Q :=
  fold_right Qplus 0 l / inject_Z (Z.of_nat (length l)).

(** [min_area] and [max_area] of the source. *)
Definition min_area (total : Z) (min_frac : Q) : Z :=
  Z.max 1 (int_of (inject_Z total * min_frac)).

Definition max_area (total : Z) (min_frac max_frac : Q) : Z :=
  Z.max (min_area total min_frac) (int_of (inject_Z total * max_frac)).

(** The negation of the test [area < min_area or area > max_area]. *)
Definition area_kept (total : Z) (min_frac max_frac : Q) (area : Z) : bool :=
  negb ((area <? min_area total min_frac)%Z
        || (max_area total min_frac max_frac <? area)%Z).

(** [list.sort(key=..., reverse=True)]: descending by key, stable. *)
Fixpoint insert_desc {A} (key : A -> Z) (a : A) (l : list A) : list A :=
  match l with
  | [] => [a]
  | b :: t => if (key b <=? key a)%Z then a :: l else b :: insert_desc key a t
  end.

Definition sort_desc {A} (key : A -> Z) (l : list A) : list A :=
  fold_right (insert_desc key) [] l.

(** Default keyword arguments of [find_hotspots_from_thr]. *)
Definition default_min_frac : Q := 0.0001.
Definition default_max_frac : Q := 0.25.
Definition default_max_boxes : nat := 20.

Section Detector.

Variable connectedComponents : Labelling.

(** One iteration of the loop over labels: [None] stands for [continue]. *)
Definition hotspot_of_label (heat_map : list (list Q)) (labels : list (list nat))
    (ambient maxC gamma : Q) (min_frac max_frac : Q) (label : nat)
  : option Hotspot :=
  let '(H, W) := shape heat_map in
  let total := Z.of_nat (H * W) in
  let px := component labels H W label in
  let '(x, y, w, h, area) := stats_of px in
  if negb (area_kept total min_frac max_frac area) then None
  else
    let comp_scores := map (fun p => at2 0 heat_map (fst p) (snd p)) px in
    if (length comp_scores =? 0)%nat then None
    else
      let mean_score := mean comp_scores in
      let temp_val :=
        score_to_temp (Q2R mean_score) (Q2R ambient) (Q2R maxC) (Q2R gamma) in
      Some {| box_x := x; box_y := y; box_w := w; box_h := h;
              pixels := area; meanScore := mean_score; tempC := temp_val |}.

(** The list [hotspots] when the loop over labels ends. *)
Definition candidates (heat_map : list (list Q)) (labels : list (list nat))
    (num_labels : nat) (ambient maxC gamma min_frac max_frac : Q)
  : list Hotspot :=
  flat_map
    (fun label =>
       match hotspot_of_label heat_map labels ambient maxC gamma
               min_frac max_frac label with
       | Some hs => [hs]
       | None => []
       end)
    (seq 1 (num_labels - 1)).

Definition find_hotspots_from_thr (heat_map : list (list Q)) (thr : Q)
    (ambient maxC gamma : Q) (min_frac max_frac : Q) (max_boxes : nat)
  : list Hotspot :=
  let mask := mask_of heat_map thr in
  if (count_nonzero mask =? 0)%nat then []
  else
    let '(num_labels, labels) := connectedComponents mask in
    let hotspots :=
      candidates heat_map labels num_labels ambient maxC gamma
        min_frac max_frac in
    firstn max_boxes (sort_desc pixels hotspots).

End Detector.

(** ** Run summary ([build_summary]) *)

(** An entry of [all_hotspots]: the per-frame dictionary extended with
    [frameIdx] and [tSec]. *)
Record TimedHotspot := mkTimed {
  spot : Hotspot;
  frameIdx : Z;
  tSec : Q
}.

(** [min(temps)] and [max(temps)] of a non-empty list; [None] otherwise. *)
Definition min_temp_of (temps : list R) : option R :=
  match temps with
  | [] => None
  | t :: rest => Some (fold_left Rmin rest t)
  end.

Definition max_temp_of (temps : list R) : option R :=
  match temps with
  | [] => None
  | t :: rest => Some (fold_left Rmax rest t)
  end.

(** [os.path.basename]: what follows the last slash. *)
Fixpoint basename (s : String.string) : String.string :=
  match s with
  | String.EmptyString => String.EmptyString
  | String.String c rest =>
      if Ascii.eqb c "/"%char then basename rest
      else if existsb (Ascii.eqb "/"%char) (String.list_ascii_of_string rest)
           then basename rest
           else s
  end.

Module Summary.
Record t := mk {
  file : String.string;
  width : Z;
  height : Z;
  framesUsed : Z;
  durationSec : Q;
  stat : Stat;
  percentileLow : Q;
  percentileHigh : Q;
  ambientC : Q;
  maxC : Q;
  gamma : Q;
  minHotspotTempC : option R;
  maxHotspotTempC : option R;
  hotspots : list TimedHotspot
}.
End Summary.

Definition top_n : nat := 40.

Definition build_summary (args : Args) (width height frames_used : Z)
    (duration_sec : Q) (hotspots : list TimedHotspot) : Summary.t :=
  let hotspots_sorted := sort_desc (fun hs => pixels (spot hs)) hotspots in
  let top_hotspots := firstn top_n hotspots_sorted in
  let temps := map (fun hs => tempC (spot hs)) hotspots in
  {| Summary.file := basename (input args);
     Summary.width := width;
     Summary.height := height;
     Summary.framesUsed := frames_used;
     Summary.durationSec := duration_sec;
     Summary.stat := stat args;
     Summary.percentileLow := pLow args;
     Summary.percentileHigh := pHigh args;
     Summary.ambientC := ambient args;
     Summary.maxC := maxC args;
     Summary.gamma := gamma args;
     Summary.minHotspotTempC := min_temp_of temps;
     Summary.maxHotspotTempC := max_temp_of temps;
     Summary.hotspots := top_hotspots |}.

(** ** The run ([process_video], [main]) *)

(** What the run meets outside itself: whether OpenCV can be imported,
    whether the input exists and the decoder opens it, for a path whether
    its parent directory exists and whether [os.makedirs] can create it,
    whether the encoder opens the output, the properties the decoder
    reports and the frames it delivers. *)
Record World := mkWorld {
  cv2_importable : bool;
  input_exists : bool;
  capture_opens : bool;
  parent_exists : string -> bool;
  makedirs_succeeds : string -> bool;
  writer_opens : bool;
  prop_fps : Q;
  prop_width : Z;
  prop_height : Z;
  decoded : list Frame
}.





Section Run.

(** OpenCV's [cv2.blur(_, (5, 5))] and component labelling. *)
Variable blur : list (list Q) -> list (list Q).
Variable connectedComponents : Labelling.

(** The hotspots of one frame. *)
Definition frame_hotspots (args : Args) (frame : Frame) : list Hotspot :=
  let score := heat_score frame in
  let heat_used := blur score in
  let flat := concat heat_used in
  let p_high_val := snd (percentile_values (pLow args) (pHigh args) flat) in
  find_hotspots_from_thr connectedComponents heat_used p_high_val
    (ambient args) (maxC args) (gamma args)
    default_min_frac default_max_frac default_max_boxes.

(** The [while True] loop, as far as [all_hotspots] and [frame_idx] go:
    the state is threaded through the frames in order. *)
Fixpoint frame_loop (args : Args) (fps : Q) (frames : list Frame)
    (frame_idx : Z) (all_hotspots : list TimedHotspot)
  : Z * list TimedHotspot :=
  match frames with
  | [] => (frame_idx, all_hotspots)
  | frame :: rest =>
      let hotspots := frame_hotspots args frame in
      let stamped :=
        map (fun hs => {| spot := hs; frameIdx := frame_idx;
                          tSec := inject_Z frame_idx / fps |}) hotspots in
      frame_loop args fps rest (frame_idx + 1) (all_hotspots ++ stamped)
  end.



End Run.

(** ** IEEE-754 binary32: colour ramp and compositor *)

(** The arrays [frame_f], [tg], [r], [g], [b], [alpha] and [out_frame] of
    the source have dtype [float32]; Python float literals combined with
    them are converted to [float32] first.  Every operation below rounds
    to nearest, ties to even, as the hardware does. *)
Module F32.

Definition prec : Z := 24.
Definition emax : Z := 128.

Definition of_int (z : Z) : spec_float := binary_normalize prec emax z 0 false.

(** A binary64 value converted to binary32. *)
Definition of_double (x : spec_float) : spec_float :=
  match x with
  | S754_finite s m e => binary_round prec emax s m e
  | _ => x
  end.

(** The Python literal [n/d] (a binary64: the quotient rounded once),
    as it enters a [float32] operation. *)
Definition literal (n d : Z) : spec_float :=
  of_double (SFdiv 53 1024 (binary_normalize 53 1024 n 0 false)
                           (binary_normalize 53 1024 d 0 false)).

Definition add := SFadd prec emax.
Definition sub := SFsub prec emax.
Definition mul := SFmul prec emax.
Definition div := SFdiv prec emax.
Definition ltb := SFltb.
Definition leb := SFleb.

Definition zero : spec_float := of_int 0.
Definition one : spec_float := of_int 1.
Definition c255 : spec_float := of_int 255.
Definition c033 : spec_float := literal 33 100.
Definition c066 : spec_float := literal 66 100.
Definition c034 : spec_float := literal 34 100.

Definition maximum (a b : spec_float) := if ltb a b then b else a.
Definition minimum (a b : spec_float) := if ltb b a then b else a.
Definition clip (x lo hi : spec_float) := minimum (maximum x lo) hi.

(** The rational a finite binary32 stands for. *)
Definition to_Q (x : spec_float) : Q :=
  match x with
  | S754_finite s m e =>
      let v := match e with
               | Zneg p => Zpos m # (2 ^ p)
               | _ => inject_Z (Zpos m * 2 ^ e)
               end in
      if s then - v else v
  | _ => 0
  end.

(** [.astype(np.uint8)]: the fractional part is dropped. *)
Definition astype_uint8 (x : spec_float) : byte :=
  match Byte.of_N (Z.to_N (int_of (to_Q x) mod 256)) with
  | Some v => v
  | None => x00
  end.

(** *** Colour ramp ([build_colormap]) *)

(** The three segment formulas, each giving [(r, g, b)]. *)
Definition seg1_color (tg : spec_float) :=
  let u1 := div tg c033 in (zero, u1, one).

Definition seg2_color (tg : spec_float) :=
  let u2 := div (sub tg c033) c033 in (u2, one, sub one u2).

Definition seg3_color (tg : spec_float) :=
  let u3 := div (sub tg c066) c034 in (one, sub one u3, zero).

(** The colour assigned at one entry: the masks [seg1], [seg2], [seg3]
    select the formula; an entry in no mask keeps the zeros the arrays
    were created with. *)
Definition ramp (tg : spec_float) : spec_float * spec_float * spec_float :=
  if ltb tg c033 then seg1_color tg
  else if leb c033 tg && ltb tg c066 then seg2_color tg
  else if leb c066 tg then seg3_color tg
  else (zero, zero, zero).

Definition opacity (alpha_max tg : spec_float) : spec_float :=
  clip (mul alpha_max tg) zero one.

Section Colormap.

(** [**] on [float32] arrays is the C library's [powf]. *)
Variable powf : spec_float -> spec_float -> spec_float.

Definition build_colormap (t gamma alpha_max : spec_float) :=
  let tg := powf (clip t zero one) gamma in
  (ramp tg, opacity alpha_max tg).

End Colormap.

(** *** Compositor (inside [process_video]) *)

(** [frame.astype(np.float32) / 255.0], one channel. *)
Definition frame_f (v : byte) : spec_float :=
  div (of_int (Z.of_N (Byte.to_N v))) c255.

(** [np.clip(out_frame * 255.0, 0, 255).astype(np.uint8)], one channel. *)
Definition out_u8 (x : spec_float) : byte :=
  astype_uint8 (clip (mul x c255) zero c255).

(** [frame_f * (1.0 - a) + heat * a], one channel. *)
Definition blend (f heat a : spec_float) : spec_float :=
  add (mul f (sub one a)) (mul heat a).

(** One pixel of [out_frame_u8]; [rgb] and [a] are the colour and the
    opacity computed for that pixel. *)
Definition out_pixel (no_overlay : bool) (px : Pixel)
    (rgb : spec_float * spec_float * spec_float) (a : spec_float) : Pixel :=
  let '(b8, g8, r8) := px in
  let '(r_h, g_h, b_h) := rgb in
  if no_overlay then
    (out_u8 (frame_f b8), out_u8 (frame_f g8), out_u8 (frame_f r8))
  else
    (out_u8 (blend (frame_f b8) b_h a),
     out_u8 (blend (frame_f g8) g_h a),
     out_u8 (blend (frame_f r8) r_h a)).

(** [map] with the index. *)
Fixpoint mapi_from {A B} (i : nat) (f : nat -> A -> B) (l : list A) : list B :=
  match l with
  | [] => []
  | a :: t => f i a :: mapi_from (S i) f t
  end.

(** The frame written for [frame] before any annotation is drawn;
    [heat r c] is the colour and opacity of the pixel in row [r],
    column [c]. *)
Definition out_frame_u8 (no_overlay : bool) (frame : Frame)
    (heat : nat -> nat -> spec_float * spec_float * spec_float * spec_float)
  : Frame :=
  mapi_from 0
    (fun r row =>
       mapi_from 0
         (fun c px => out_pixel no_overlay px (fst (heat r c)) (snd (heat r c)))
         row)
    frame.

End F32.

(** ** Orders and predicates used in the statements *)

(** [a] may stand before [b] in a list sorted by [key], largest first. *)
Definition desc {A} (key : A -> Z) (a b : A) : Prop := (key b <= key a)%Z.

(** What the summary says about a list of temperatures: nothing when the
    list is empty, otherwise two of its members that bound all of it. *)
Definition extremes_of (temps : list R) (lo hi : option R) : Prop :=
  match temps with
  | [] => lo = None /\ hi = None
  | _ :: _ =>
      exists tmin tmax : R,
        lo = Some tmin /\ hi = Some tmax /\
        In tmin temps /\ In tmax temps /\
        Forall (fun t => (tmin <= t <= tmax)%R) temps
  end.






(** ** Concrete inputs *)

(** A command line giving [--gamma 10] and nothing else. *)
Definition args_gamma_10 : Args :=
  {| input := "in.mp4"%string; output := "out.mp4"%string;
     pLow := 0.80; pHigh := 0.98; gamma := 10; alpha := 0.6;
     stat := stat_avg; ambient := 22; maxC := 120; ema := 0;
     summary_json := None; preview := false; no_overlay := false |}.

(** A command line giving [--pLow 1 --pHigh 1]. *)
Definition args_pLow_at_cap : Args :=
  {| input := "in.mp4"%string; output := "out.mp4"%string;
     pLow := 1; pHigh := 1; gamma := 1.2; alpha := 0.6;
     stat := stat_avg; ambient := 22; maxC := 120; ema := 0;
     summary_json := None; preview := false; no_overlay := false |}.

(** A command line giving [--gamma -1] and nothing else. *)
Definition args_gamma_negative : Args :=
  {| input := "in.mp4"%string; output := "out.mp4"%string;
     pLow := 0.80; pHigh := 0.98; gamma := -1; alpha := 0.6;
     stat := stat_avg; ambient := 22; maxC := 120; ema := 0;
     summary_json := None; preview := false; no_overlay := false |}.

(** A labelling for masks whose foreground is one connected region: the
    background is [0], the region is [1]. *)
Definition single_region : Labelling :=
  fun mask => (2%nat, map (map (fun b : bool => if b then 1%nat else 0%nat)) mask).

(** Three worlds, each with one thing missing, and one with nothing
    missing and no frame to decode. *)
Definition world_ok : World :=
  {| cv2_importable := true; input_exists := true; capture_opens := true;
     parent_exists := fun _ => true;
     makedirs_succeeds := fun _ => true; writer_opens := true; prop_fps := 25; prop_width := 64; prop_height := 64;
     decoded := [] |}.




(** A frame of 100 rows and 150 columns whose smoothed score is [0.9] at
    one pixel and [0] elsewhere. *)
Definition heat_one_hot_pixel : list (list Q) :=
  map (fun r =>
         map (fun c => if ((r =? 50) && (c =? 75))%nat then 0.9 else 0)
           (seq 0 150))
    (seq 0 100).

(** A frame of 64 by 64 pixels whose smoothed score is [0.5] on a square
    of 100 pixels and [0] elsewhere. *)
Definition heat_warm_square : list (list Q) :=
  map (fun r =>
         map (fun c =>
                if ((10 <=? r) && (r <? 20) && (10 <=? c) && (c <? 20))%nat
                then 0.5 else 0)
           (seq 0 64))
    (seq 0 64).


(** ** Annotation colour ([temp_to_bgr]) *)

(** The colour [(B, G, R)] of a bounding box: green near [ambient], red
    near [maxC]. *)
Definition temp_to_bgr (tempC ambient maxC : Q) : Z * Z * Z :=
  let frac :=
    if Qle_bool maxC ambient then 1
    else (tempC - ambient) / (maxC - ambient) in
  let frac := clip frac 0 1 in
  let g := int_of (255 * (1 - frac)) in
  let r := int_of (255 * frac) in
  (0%Z, g, r).

(** ** Progress lines (inside [process_video]) *)

(** Whether a progress line is printed once [frame_idx] frames are done;
    [total_frames] is the count the decoder reported, [0] or less when it
    reported none. *)
Definition progress_due (total_frames frame_idx : Z) : bool :=
  if (0 <? total_frames)%Z
  then (frame_idx mod 30 =? 0)%Z || (frame_idx =? total_frames)%Z
  else (frame_idx mod 30 =? 0)%Z.

(** The values of [frame_idx] at which a progress line is printed during
    a run that decodes [n] frames. *)
Definition progress_lines (total_frames : Z) (n : nat) : list Z :=
  filter (progress_due total_frames) (map Z.of_nat (seq 1 n)).

(** ** Jobs of the HTTP layer ([app.py]: [run_job], [status], [download]) *)

Inductive JobStatus := queued | running | done | error.

(** An entry of [JOBS]. *)
Record Job := mkJob {
  job_status : JobStatus;
  job_error : option string;
  job_log : list string;
  input_path : string;
  output_path : string;
  cli_args : list string;
  created_at : Q;
  started_at : option Q;
  finished_at : option Q
}.

(** [JOBS]: job identifiers are keys of a dictionary, so each occurs at
    most once; [JOBS.get] finds the entry of a key. *)
Definition Jobs : Type := list (string * Job).

Fixpoint jobs_get (jobs : Jobs) (job_id : string) : option Job :=
  match jobs with
  | [] => None
  | (k, j) :: rest => if String.eqb k job_id then Some j else jobs_get rest job_id
  end.

(** The entry of [job_id] is mutated in place by [f]. *)
Fixpoint jobs_update (jobs : Jobs) (job_id : string) (f : Job -> Job) : Jobs :=
  match jobs with
  | [] => []
  | (k, j) :: rest =>
      if String.eqb k job_id then (k, f j) :: rest
      else (k, j) :: jobs_update rest job_id f
  end.

(** [line.rstrip("\n")] *)
Fixpoint rstrip_newline (s : string) : string :=
  match s with
  | EmptyString => EmptyString
  | String c rest =>
      let rest' := rstrip_newline rest in
      if Ascii.eqb c "010"%char && String.eqb rest' EmptyString
      then EmptyString
      else String c rest'
  end.

(** [str(rc)] for an integer. *)
Definition str_of_int (z : Z) : string := NilZero.string_of_int (Z.to_int z).

(** What starting the processor leads to: [Popen] raises [e], or the
    process runs, prints [lines] and exits with [rc]. *)
Inductive Launch :=
| LaunchFailed (e : string)
| Ran (lines : list string) (rc : Z).

Definition set_status (st : JobStatus) (err : option string) (t_end : Q)
    (j : Job) : Job :=
  {| job_status := st; job_error := err; job_log := job_log j;
     input_path := input_path j; output_path := output_path j;
     cli_args := cli_args j; created_at := created_at j;
     started_at := started_at j; finished_at := Some t_end |}.

Definition set_running (t_start : Q) (j : Job) : Job :=
  {| job_status := running; job_error := job_error j; job_log := job_log j;
     input_path := input_path j; output_path := output_path j;
     cli_args := cli_args j; created_at := created_at j;
     started_at := Some t_start; finished_at := finished_at j |}.

Definition append_log (lines : list string) (j : Job) : Job :=
  {| job_status := job_status j; job_error := job_error j;
     job_log := job_log j ++ lines;
     input_path := input_path j; output_path := output_path j;
     cli_args := cli_args j; created_at := created_at j;
     started_at := started_at j; finished_at := finished_at j |}.

(** [run_job]: [processor_present] tells whether [thermal_processor.py]
    is on disk, [launch] what starting it leads to, [t_start] and [t_end]
    what [time.time()] returns at the two places it is read. *)
Definition run_job (processor_present : bool) (launch : Launch)
    (t_start t_end : Q) (jobs : Jobs) (job_id : string) : Jobs :=
  match jobs_get jobs job_id with
  | None => jobs
  | Some _ =>
      let jobs := jobs_update jobs job_id (set_running t_start) in
      if negb processor_present then
        jobs_update jobs job_id
          (set_status error (Some "thermal_processor.py not found"%string) t_end)
      else
        match launch with
        | LaunchFailed e =>
            jobs_update jobs job_id
              (set_status error
                 (Some ("Failed to start thermal_processor: " ++ e)%string) t_end)
        | Ran lines rc =>
            let jobs :=
              jobs_update jobs job_id (append_log (map rstrip_newline lines)) in
            if (rc =? 0)%Z then
              jobs_update jobs job_id
                (fun j => set_status done (job_error j) t_end j)
            else
              jobs_update jobs job_id
                (set_status error
                   (Some ("thermal_processor exited with code "
                          ++ str_of_int rc)%string) t_end)
        end
  end.

(** What [download] answers. *)
Inductive DownloadResponse :=
| unknown_job_404
| not_ready_400 (st : JobStatus)
| file_missing_500
| send_file_200 (path : string).

Definition download (file_exists : string -> bool) (jobs : Jobs)
    (job_id : string) : DownloadResponse :=
  match jobs_get jobs job_id with
  | None => unknown_job_404
  | Some job =>
      match job_status job with
      | done =>
          if file_exists (output_path job)
          then send_file_200 (output_path job)
          else file_missing_500
      | st => not_ready_400 st
      end
  end.

(** ** What the frame loop adds *)

(** The entries of a list of hotspots that carry the frame index [i]. *)
Definition of_frame (i : Z) (l : list TimedHotspot) : list TimedHotspot :=
  filter (fun th => (frameIdx th =? i)%Z) l.

(** [added] is what the loop appends for [frames] numbered from [start]:
    every entry carries the index of a frame of the loop and the time
    stamp of that index; the entries come in frame order; the entries of
    each frame are exactly the hotspots the detector emitted for that
    frame, in the order it emitted them, so that no frame contributes
    more than [max_boxes] of them. *)
Definition stamped_from (blur : list (list Q) -> list (list Q))
    (cc : Labelling) (args : Args) (fps : Q) (start : Z)
    (frames : list Frame) (added : list TimedHotspot) : Prop :=
  Forall (fun th =>
            (start <= frameIdx th < start + Z.of_nat (length frames))%Z /\
            tSec th = inject_Z (frameIdx th) / fps)
    added /\
  StronglySorted (fun a b => (frameIdx a <= frameIdx b)%Z) added /\
  (forall i : Z,
      (start <= i < start + Z.of_nat (length frames))%Z ->
      map spot (of_frame i added)
      = frame_hotspots blur cc args (nth (Z.to_nat (i - start)) frames [])) /\
  (forall i : Z, (length (of_frame i added) <= default_max_boxes)%nat).

(** ** More concrete inputs *)

(** A frame of two rows and two columns, all black. *)
Definition black_frame : Frame :=
  [[(x00, x00, x00); (x00, x00, x00)]; [(x00, x00, x00); (x00, x00, x00)]].



(** ** Finite binary32 values *)

(** Neither an infinity nor a NaN. *)
Definition finite32 (x : spec_float) : bool :=
  match x with
  | S754_zero _ | S754_finite _ _ _ => true
  | _ => false
  end.


(* ================================================================== *)
(** * Part II.  Properties                                             *)
(* ================================================================== *)

(** ** Clipping *)

Lemma clip_bounds (x lo hi : Q) : lo <= hi -> lo <= clip x lo hi /\ clip x lo hi <= hi.
Proof.
  intros Hle. unfold clip.
  destruct (Q.max_spec x lo) as [[H1 E1] | [H1 E1]];
    destruct (Q.min_spec (Qmax x lo) hi) as [[H2 E2] | [H2 E2]];
    split; lraQ.
Qed.

Lemma clamp_bounds (x lo hi : Q) : lo <= hi -> lo <= _clamp x lo hi /\ _clamp x lo hi <= hi.
Proof.
  intros Hle. unfold _clamp.
  destruct (Q.min_spec hi x) as [[H1 E1] | [H1 E1]];
    destruct (Q.max_spec lo (Qmin hi x)) as [[H2 E2] | [H2 E2]];
    split; lraQ.
Qed.

Lemma clip_inside (x lo hi : Q) : lo <= x -> x <= hi -> clip x lo hi == x.
Proof.
  intros H1 H2. unfold clip.
  destruct (Q.max_spec x lo) as [[H3 E1] | [H3 E1]];
    destruct (Q.min_spec (Qmax x lo) hi) as [[H4 E2] | [H4 E2]];
    lraQ.
Qed.

(** ** Command line *)

(** After [parse_args] both percentiles lie in [[0, 0.999]] and the
    opacity lies in [[0, 1]], whatever was given. *)
Lemma parse_args_clipped (a : Args) :
  let a' := parse_args a in
  (0 <= pLow a' /\ pLow a' <= 0.999) /\
  (0 <= pHigh a' /\ pHigh a' <= 0.999) /\
  (0 <= alpha a' /\ alpha a' <= 1).
Proof.
  cbn -[clip Qmin Qle_bool].
  assert (HL := @clip_bounds (pLow a) 0 0.999).
  assert (HH := @clip_bounds (pHigh a) 0 0.999).
  assert (HA := @clip_bounds (alpha a) 0 1).
  repeat split; try (apply HL; lraQ); try (apply HA; lraQ).
  - destruct (Qle_bool _ _); [| apply HH; lraQ].
    destruct (Q.min_spec (clip (pLow a) 0 0.999 + 0.01) 0.999) as [[H1 E] | [H1 E]];
      destruct HL as [HL _]; lraQ.
  - destruct (Qle_bool _ _); [| apply HH; lraQ].
    destruct (Q.min_spec (clip (pLow a) 0 0.999 + 0.01) 0.999) as [[H1 E] | [H1 E]];
      lraQ.
Qed.

(** [parse_args] hands [gamma] on as it was parsed. *)
Lemma parse_args_gamma (a : Args) : gamma (parse_args a) = gamma a.
Proof. reflexivity. Qed.

(** The HTTP layer does clamp [gamma], to [[0.1, 6.0]]; a run started by
    it therefore sees every value in range. *)
Lemma upload_then_parse_in_range (f : Form) (a : Args) :
  let a' := parse_args (upload f a) in
  (0 <= pLow a' /\ pLow a' <= 0.999) /\
  (0 <= pHigh a' /\ pHigh a' <= 0.999) /\
  (0 <= alpha a' /\ alpha a' <= 1) /\
  (0.1 <= gamma a' /\ gamma a' <= 6.0).
Proof.
  intros a'. destruct (parse_args_clipped (upload f a)) as (HL & HH & HA).
  repeat split; try apply HL; try apply HH; try apply HA;
    unfold a'; rewrite parse_args_gamma; cbn -[_clamp];
    apply clamp_bounds; lraQ.
Qed.

(** C2 (evaluation at the failing input).  Given [--gamma 10],
    [parse_args] returns [gamma = 10], which exceeds the declared upper
    bound [6.0]: the percentiles and the opacity are clipped, [gamma] is
    not. *)
Theorem parse_args_leaves_gamma_out_of_range :
  gamma (parse_args args_gamma_10) = 10 /\
  ~ (0.1 <= gamma (parse_args args_gamma_10) /\
     gamma (parse_args args_gamma_10) <= 6.0).
Proof.
  split; [reflexivity |].
  rewrite parse_args_gamma. cbn. intros [_ H]. lraQ.
Qed.


(** C3 (evaluation at the failing input).  Given [--pLow 1 --pHigh 1],
    both percentiles are clipped to [0.999] and the bump
    [min(pLow + 0.01, 0.999)] gives [0.999] again: [pHigh] equals [pLow]
    and is not strictly greater. *)
Theorem parse_args_pHigh_equals_pLow_at_cap :
  pLow (parse_args args_pLow_at_cap) == 0.999 /\
  pHigh (parse_args args_pLow_at_cap) == 0.999 /\
  ~ (pLow (parse_args args_pLow_at_cap) < pHigh (parse_args args_pLow_at_cap)).
Proof.
  repeat split; try reflexivity.
  intros H; vm_compute in H; discriminate H.
Qed.

(** The same happens in the HTTP layer, whose comment reads "garantir
    pHigh > pLow". *)
Lemma upload_pHigh_equals_pLow_at_cap (a : Args) :
  let f := {| form_pLow := 1; form_pHigh := 0.5; form_gamma := 1.2; form_alpha := 0.6 |} in
  ~ (pLow (upload f a) < pHigh (upload f a)).
Proof. intros f H; vm_compute in H; discriminate H. Qed.

(** ** Dynamic range normalisation *)

Lemma insert_asc_perm (x : Q) (l : list Q) : Permutation (x :: l) (insert_asc x l).
Proof.
  induction l as [| y t IH]; cbn; [reflexivity |].
  destruct (Qle_bool x y); [reflexivity |].
  rewrite perm_swap. now apply perm_skip.
Qed.

Lemma sort_asc_perm (l : list Q) : Permutation l (sort_asc l).
Proof.
  induction l as [| x t IH]; cbn; [reflexivity |].
  rewrite <- insert_asc_perm. now apply perm_skip.
Qed.

Lemma insert_asc_sorted (x : Q) (l : list Q) :
  StronglySorted Qle l -> StronglySorted Qle (insert_asc x l).
Proof.
  induction l as [| y t IH]; cbn; intros Hs.
  - constructor; constructor.
  - inversion Hs as [| ? ? Ht Hy]; subst.
    destruct (Qle_bool x y) eqn:E.
    + apply Qle_bool_iff in E. constructor; [exact Hs |].
      constructor; [exact E |].
      eapply Forall_impl; [| exact Hy]. intros z Hz. cbn in Hz. lraQ.
    + assert (Hyx : y <= x).
      { destruct (Qlt_le_dec y x) as [H | H]; [lraQ |].
        apply Qle_bool_iff in H. congruence. }
      constructor; [now apply IH |].
      eapply Permutation_Forall; [apply insert_asc_perm |].
      constructor; assumption.
Qed.

Lemma sort_asc_sorted (l : list Q) : StronglySorted Qle (sort_asc l).
Proof.
  induction l as [| x t IH]; cbn; [constructor | now apply insert_asc_sorted].
Qed.

Lemma clamp_index_range (idx size : Z) :
  (0 < size)%Z -> (0 <= clamp_index idx size < size)%Z.
Proof. unfold clamp_index. lia. Qed.

(** On a non-empty map the low value is an order statistic of the map, and
    so is the high value unless the repair replaced it. *)
Lemma percentile_values_from_map (p_low p_high : Q) (flat : list Q) :
  flat <> [] ->
  In (fst (percentile_values p_low p_high flat)) flat /\
  (In (snd (percentile_values p_low p_high flat)) flat \/
   snd (percentile_values p_low p_high flat)
   = fst (percentile_values p_low p_high flat) + 0.000001).
Proof.
  intros Hne. unfold percentile_values.
  assert (Hsize : (0 < Z.of_nat (length flat))%Z).
  { destruct flat; [congruence | cbn [length]; lia]. }
  apply Z.ltb_lt in Hsize. rewrite Hsize. apply Z.ltb_lt in Hsize.
  cbn [fst snd].
  assert (Hin : forall idx,
            In (nth (Z.to_nat (clamp_index idx (Z.of_nat (length flat))))
                  (sort_asc flat) 0) flat).
  { intros idx. eapply Permutation_in; [symmetry; apply sort_asc_perm |].
    apply nth_In. rewrite <- (Permutation_length (sort_asc_perm flat)).
    pose proof (clamp_index_range idx Hsize). lia. }
  destruct (Qle_bool _ _); cbn [fst snd]; split; auto.
Qed.

(** C6.  Whatever the percentiles and the smoothed score map (constant or
    not, and even empty), the pair of thresholds left by the repair has
    its high value strictly above its low value, and every normalised
    entry [clip((v - lo) / (hi - lo), 0, 1)] lies in [[0, 1]]. *)
Theorem normalizer_never_degenerates (p_low p_high : Q) (flat : list Q) :
  fst (percentile_values p_low p_high flat)
  < snd (percentile_values p_low p_high flat) /\
  forall v : Q,
    0 <= normalize (fst (percentile_values p_low p_high flat))
                   (snd (percentile_values p_low p_high flat)) v /\
    normalize (fst (percentile_values p_low p_high flat))
              (snd (percentile_values p_low p_high flat)) v <= 1.
Proof.
  split.
  - unfold percentile_values.
    match goal with |- context [Qle_bool ?a ?b] => destruct (Qle_bool a b) eqn:E end;
      cbn [fst snd].
    + lraQ.
    + match type of E with Qle_bool ?a ?b = false =>
        destruct (Qlt_le_dec b a) as [H | H]; [exact H |] end.
      apply Qle_bool_iff in H. congruence.
  - intros v. unfold normalize. apply clip_bounds. lraQ.
Qed.

(** ** Score to temperature *)

Lemma clipR_bounds (x lo hi : R) : (lo <= hi -> lo <= clipR x lo hi <= hi)%R.
Proof.
  intros H. unfold clipR, Rmin, Rmax.
  repeat match goal with |- context [Rle_dec ?a ?b] => destruct (Rle_dec a b) end;
    lraR.
Qed.

Lemma clipR_mono (x y lo hi : R) : (x <= y -> clipR x lo hi <= clipR y lo hi)%R.
Proof.
  intros H. unfold clipR.
  apply Rle_min_compat_r. now apply Rle_max_compat_r.
Qed.

Lemma Rpower_one_base (g : R) : Rpower 1 g = 1%R.
Proof. unfold Rpower. now rewrite ln_1, Rmult_0_r, exp_0. Qed.

Lemma npow_nonneg (x g : R) : (0 <= npow x g)%R.
Proof.
  unfold npow. destruct (Req_dec_T x 0); [destruct (Req_dec_T g 0); lraR |].
  left. unfold Rpower. apply exp_pos.
Qed.

(** For a non-negative exponent the power is non-decreasing in the base. *)
Lemma npow_mono (x y g : R) : (0 <= x -> x <= y -> 0 <= g -> npow x g <= npow y g)%R.
Proof.
  intros Hx Hxy Hg. unfold npow.
  destruct (Req_dec_T x 0) as [Ex | Nx].
  - destruct (Req_dec_T g 0) as [Eg | Ng].
    + destruct (Req_dec_T y 0); [lraR |].
      subst g. unfold Rpower. rewrite Rmult_0_l, exp_0. lraR.
    + destruct (Req_dec_T y 0); [lraR |]. left. unfold Rpower. apply exp_pos.
  - destruct (Req_dec_T y 0) as [Ey | Ny]; [lraR |].
    apply Rle_Rpower_l; [exact Hg | split; lraR].
Qed.

Lemma npow_le_1 (x g : R) : (0 <= x <= 1 -> 0 <= g -> npow x g <= 1)%R.
Proof.
  intros [Hx0 Hx1] Hg.
  assert (E : npow 1 g = 1%R).
  { unfold npow. destruct (Req_dec_T 1 0); [lraR | apply Rpower_one_base]. }
  rewrite <- E. now apply npow_mono.
Qed.

(** With [ambient <= maxC] and a non-negative exponent the map is
    non-decreasing in the score, clipping included. *)
Lemma score_to_temp_mono (s1 s2 ambient maxC gamma : R) :
  (s1 <= s2 -> ambient <= maxC -> 0 <= gamma ->
   score_to_temp s1 ambient maxC gamma <= score_to_temp s2 ambient maxC gamma)%R.
Proof.
  intros Hs Ha Hg. unfold score_to_temp.
  assert (H : (npow (clipR s1 0 1) gamma <= npow (clipR s2 0 1) gamma)%R).
  { apply npow_mono; [| now apply clipR_mono | exact Hg].
    apply clipR_bounds. lraR. }
  nraR.
Qed.

(** C9.  For scores [s1 <= s2] in [[0, 1]], [maxC > ambient] and a
    positive [gamma], the temperature of [s1] does not exceed the
    temperature of [s2]. *)
Theorem score_to_temp_monotone (s1 s2 ambient maxC gamma : R) :
  (0 <= s1 -> s1 <= s2 -> s2 <= 1 -> ambient < maxC -> 0 < gamma ->
   score_to_temp s1 ambient maxC gamma <= score_to_temp s2 ambient maxC gamma)%R.
Proof.
  intros _ Hs _ Ha Hg. apply score_to_temp_mono; lraR.
Qed.

Lemma score_to_temp_monotone_witness :
  (score_to_temp (1/4) 22 120 (12/10) <= score_to_temp (1/2) 22 120 (12/10))%R.
Proof.
  apply (@score_to_temp_monotone (1/4) (1/2) 22 120 (12/10)); lraR.
Defined.

(** With [ambient <= maxC] and a non-negative exponent the temperature
    stays between [ambient] and [maxC]. *)
Lemma score_to_temp_range (s ambient maxC gamma : R) :
  (ambient <= maxC -> 0 <= gamma ->
   ambient <= score_to_temp s ambient maxC gamma <= maxC)%R.
Proof.
  intros Ha Hg. unfold score_to_temp.
  pose proof (npow_nonneg (clipR s 0 1) gamma) as H0.
  assert (H1 : (npow (clipR s 0 1) gamma <= 1)%R).
  { apply npow_le_1; [apply clipR_bounds; lraR | exact Hg]. }
  split; nraR.
Qed.

(** ** Exit status *)



(** ** binary32: compositor *)

(** Every [uint8] value survives the trip through [float32]: division by
    [255], multiplication by [255], clipping and truncation. *)
Lemma out_u8_frame_f (v : byte) : F32.out_u8 (F32.frame_f v) = v.
Proof. destruct v; vm_compute; reflexivity. Qed.

Lemma out_pixel_no_overlay (px : Pixel)
    (rgb : spec_float * spec_float * spec_float) (a : spec_float) :
  F32.out_pixel true px rgb a = px.
Proof.
  destruct px as [[b8 g8] r8], rgb as [[r_h g_h] b_h]. cbn.
  now rewrite !out_u8_frame_f.
Qed.

Lemma mapi_from_id {A} (f : nat -> A -> A) (l : list A) :
  (forall i a, f i a = a) -> forall i, F32.mapi_from i f l = l.
Proof.
  intros Hf. induction l as [| a t IH]; intros i; cbn; [reflexivity |].
  now rewrite Hf, IH.
Qed.

(** C5.  With the overlay disabled the frame handed to the encoder
    (before any annotation) equals the input frame, pixel for pixel and
    channel for channel, whatever colours and opacities were computed. *)
Theorem no_overlay_frame_identical (frame : Frame)
    (heat : nat -> nat -> spec_float * spec_float * spec_float * spec_float) :
  F32.out_frame_u8 true frame heat = frame.
Proof.
  unfold F32.out_frame_u8. apply mapi_from_id. intros r row.
  apply mapi_from_id. intros c px. apply out_pixel_no_overlay.
Qed.

(** ** binary32: colour ramp *)



(** ** Sorting by a key, largest first *)

Section SortDesc.

Context {A : Type} (key : A -> Z).

Lemma insert_desc_perm (a : A) (l : list A) :
  Permutation (a :: l) (insert_desc key a l).
Proof.
  induction l as [| b t IH]; cbn; [reflexivity |].
  destruct (key b <=? key a)%Z; [reflexivity |].
  rewrite perm_swap. now apply perm_skip.
Qed.

Lemma sort_desc_perm (l : list A) : Permutation l (sort_desc key l).
Proof.
  induction l as [| a t IH]; cbn; [reflexivity |].
  rewrite <- insert_desc_perm. now apply perm_skip.
Qed.

Lemma insert_desc_sorted (a : A) (l : list A) :
  StronglySorted (desc key) l -> StronglySorted (desc key) (insert_desc key a l).
Proof.
  induction l as [| b t IH]; cbn; intros Hs.
  - constructor; constructor.
  - inversion Hs as [| ? ? Ht Hb]; subst.
    destruct (key b <=? key a)%Z eqn:E.
    + apply Z.leb_le in E. constructor; [exact Hs |].
      constructor; [exact E |].
      eapply Forall_impl; [| exact Hb]. unfold desc. intros c Hc. lia.
    + apply Z.leb_gt in E.
      constructor; [now apply IH |].
      eapply Permutation_Forall; [apply insert_desc_perm |].
      constructor; [unfold desc; lia | assumption].
Qed.

Lemma sort_desc_sorted (l : list A) : StronglySorted (desc key) (sort_desc key l).
Proof.
  induction l as [| a t IH]; cbn; [constructor | now apply insert_desc_sorted].
Qed.

Lemma sort_desc_length (l : list A) : length (sort_desc key l) = length l.
Proof. symmetry. apply Permutation_length, sort_desc_perm. Qed.

Lemma In_firstn_sort_desc (n : nat) (l : list A) (a : A) :
  In a (firstn n (sort_desc key l)) -> In a l.
Proof.
  intros H. eapply Permutation_in; [symmetry; apply sort_desc_perm |].
  rewrite <- (firstn_skipn n (sort_desc key l)). apply in_or_app. now left.
Qed.

End SortDesc.

(** ** Run summary *)

Lemma fold_left_Rmin_spec (l : list R) (a : R) :
  In (fold_left Rmin l a) (a :: l) /\
  Forall (fun t => (fold_left Rmin l a <= t)%R) (a :: l).
Proof.
  revert a. induction l as [| b t IH]; intros a; cbn [fold_left].
  - split; [now left | constructor; [lraR | constructor]].
  - destruct (IH (Rmin a b)) as [Hin Hall].
    inversion Hall as [| ? ? Hhd Htl]; subst. split.
    + destruct Hin as [E | Hin]; [| right; right; exact Hin].
      rewrite <- E. unfold Rmin. destruct (Rle_dec a b); [left | right; left]; reflexivity.
    + pose proof (Rmin_l a b). pose proof (Rmin_r a b).
      constructor; [lraR |]. constructor; [lraR | exact Htl].
Qed.

Lemma fold_left_Rmax_spec (l : list R) (a : R) :
  In (fold_left Rmax l a) (a :: l) /\
  Forall (fun t => (t <= fold_left Rmax l a)%R) (a :: l).
Proof.
  revert a. induction l as [| b t IH]; intros a; cbn [fold_left].
  - split; [now left | constructor; [lraR | constructor]].
  - destruct (IH (Rmax a b)) as [Hin Hall].
    inversion Hall as [| ? ? Hhd Htl]; subst. split.
    + destruct Hin as [E | Hin]; [| right; right; exact Hin].
      rewrite <- E. unfold Rmax. destruct (Rle_dec a b); [right; left | left]; reflexivity.
    + pose proof (Rmax_l a b). pose proof (Rmax_r a b).
      constructor; [lraR |]. constructor; [lraR | exact Htl].
Qed.

Lemma min_max_temp_extremes (temps : list R) :
  extremes_of temps (min_temp_of temps) (max_temp_of temps).
Proof.
  destruct temps as [| t rest]; cbn; [now split |].
  destruct (fold_left_Rmin_spec rest t) as [Imin Amin].
  destruct (fold_left_Rmax_spec rest t) as [Imax Amax].
  exists (fold_left Rmin rest t), (fold_left Rmax rest t).
  repeat split; try assumption.
  rewrite Forall_forall in *. intros u Hu. split; [apply Amin | apply Amax]; exact Hu.
Qed.

(** C7.  The summary's hotspot list is the accumulated list sorted by
    [pixels], largest first, cut after [40] entries; the sorted list holds
    exactly the accumulated hotspots.  The two temperatures are the least
    and the greatest [tempC] over all accumulated hotspots, and both are
    absent exactly when nothing was accumulated. *)
Theorem build_summary_top_and_extremes (args : Args)
    (width height frames_used : Z) (duration_sec : Q)
    (hotspots : list TimedHotspot) :
  let s := build_summary args width height frames_used duration_sec hotspots in
  let by_area := sort_desc (fun hs => pixels (spot hs)) hotspots in
  Summary.hotspots s = firstn 40 by_area /\
  Permutation hotspots by_area /\
  StronglySorted (desc (fun hs => pixels (spot hs))) by_area /\
  (length (Summary.hotspots s) <= 40)%nat /\
  extremes_of (map (fun hs => tempC (spot hs)) hotspots)
    (Summary.minHotspotTempC s) (Summary.maxHotspotTempC s) /\
  (Summary.minHotspotTempC s = None <-> hotspots = []) /\
  (Summary.maxHotspotTempC s = None <-> hotspots = []).
Proof.
  cbn zeta. cbn [build_summary Summary.hotspots Summary.minHotspotTempC
                 Summary.maxHotspotTempC].
  split; [reflexivity |].
  split; [apply sort_desc_perm |].
  split; [apply sort_desc_sorted |].
  split; [apply firstn_le_length |].
  split; [apply min_max_temp_extremes |].
  destruct hotspots; cbn; split; split; intros H; try reflexivity; discriminate H.
Qed.

(** ** Hotspots: the area filter *)

Lemma int_of_min_frac (t : Z) :
  (0 <= t)%Z -> int_of (inject_Z t * default_min_frac) = (t / 10000)%Z.
Proof.
  intros Ht. unfold int_of, default_min_frac, Qmult, inject_Z. cbn [Qnum Qden].
  rewrite Z.quot_div_nonneg by lia. f_equal; lia.
Qed.

Lemma int_of_max_frac (t : Z) :
  (0 <= t)%Z -> int_of (inject_Z t * default_max_frac) = (t / 4)%Z.
Proof.
  intros Ht. unfold int_of, default_max_frac, Qmult, inject_Z. cbn [Qnum Qden].
  rewrite Z.quot_div_nonneg by lia.
  change (Z.pos (1 * 100)) with (4 * 25)%Z.
  now rewrite Z.div_mul_cancel_r by lia.
Qed.

Lemma min_area_ge_1 (total : Z) (min_frac : Q) : (1 <= min_area total min_frac)%Z.
Proof. unfold min_area. lia. Qed.

(** The filter keeps an area exactly when it lies between the two integer
    bounds. *)
Lemma area_kept_iff (total : Z) (min_frac max_frac : Q) (area : Z) :
  area_kept total min_frac max_frac area = true <->
  (min_area total min_frac <= area <= max_area total min_frac max_frac)%Z.
Proof.
  unfold area_kept. rewrite negb_true_iff, orb_false_iff, !Z.ltb_ge. lia.
Qed.

(** With the default fractions the bounds are [max(1, total div 10000)]
    and [max(min_area, total div 4)]. *)
Lemma default_bounds (total : Z) :
  (0 <= total)%Z ->
  min_area total default_min_frac = Z.max 1 (total / 10000) /\
  max_area total default_min_frac default_max_frac
  = Z.max (Z.max 1 (total / 10000)) (total / 4).
Proof.
  intros Ht. unfold max_area, min_area.
  now rewrite int_of_min_frac, int_of_max_frac.
Qed.

(** ** Hotspots: components and their statistics *)

Lemma component_in_frame (labels : list (list nat)) (H W label : nat) (p : nat * nat) :
  In p (component labels H W label) -> (fst p < H)%nat /\ (snd p < W)%nat.
Proof.
  unfold component, positions. intros Hin. apply filter_In in Hin.
  destruct Hin as [Hin _]. destruct p as [r c].
  apply in_prod_iff in Hin. rewrite !in_seq in Hin. cbn. lia.
Qed.

Lemma fold_min_le (t : list nat) (b a : nat) :
  a = b \/ In a t -> (fold_right Nat.min b t <= a)%nat.
Proof.
  induction t as [| c t IH]; cbn [fold_right In].
  - intros [-> | []]. lia.
  - intros [-> | [-> | Hin]]; [specialize (IH (or_introl eq_refl)) | | specialize (IH (or_intror Hin))]; lia.
Qed.

Lemma min_of_le (l : list nat) (a : nat) : In a l -> (min_of l <= a)%nat.
Proof.
  destruct l as [| b t]; [intros [] |]. cbn [min_of In].
  intros [-> | Hin]; apply fold_min_le; auto.
Qed.

Lemma max_of_ge (l : list nat) (a : nat) : In a l -> (a <= max_of l)%nat.
Proof.
  unfold max_of. induction l as [| b t IH]; [intros [] |].
  intros [-> | Hin]; cbn [fold_right]; [lia |]. specialize (IH Hin). lia.
Qed.

Lemma max_of_lt (l : list nat) (n : nat) :
  l <> [] -> Forall (fun a => (a < n)%nat) l -> (max_of l < n)%nat.
Proof.
  unfold max_of. induction l as [| b t IH]; [congruence |].
  intros _ Hall. inversion Hall as [| ? ? Hb Ht]; subst. cbn [fold_right].
  destruct t as [| c t']; [cbn; lia |].
  assert (fold_right Nat.max 0%nat (c :: t') < n)%nat by (apply IH; [discriminate | exact Ht]).
  lia.
Qed.

(** The bounding box of a non-empty set of positions of an [H] by [W]
    array lies inside the array. *)
Lemma stats_of_in_frame (px : list (nat * nat)) (H W : nat) :
  px <> [] ->
  Forall (fun p => (fst p < H)%nat /\ (snd p < W)%nat) px ->
  let '(x, y, w, h, area) := stats_of px in
  (0 <= x /\ 0 <= y /\ x + w <= Z.of_nat W /\ y + h <= Z.of_nat H /\ 1 <= area)%Z.
Proof.
  intros Hne Hall. unfold stats_of.
  destruct px as [| p0 rest] eqn:Epx; [congruence |]. rewrite <- Epx in *.
  assert (Hc : (min_of (map snd px) <= max_of (map snd px) < W)%nat).
  { split.
    - etransitivity; [apply (min_of_le (map snd px) (snd p0)) | apply max_of_ge];
        rewrite Epx; now left.
    - apply max_of_lt; [rewrite Epx; discriminate |].
      rewrite Forall_map. eapply Forall_impl; [| exact Hall]. cbn. tauto. }
  assert (Hr : (min_of (map fst px) <= max_of (map fst px) < H)%nat).
  { split.
    - etransitivity; [apply (min_of_le (map fst px) (fst p0)) | apply max_of_ge];
        rewrite Epx; now left.
    - apply max_of_lt; [rewrite Epx; discriminate |].
      rewrite Forall_map. eapply Forall_impl; [| exact Hall]. cbn. tauto. }
  assert (Hlen : (1 <= length px)%nat) by (rewrite Epx; cbn; lia).
  lia.
Qed.

(** ** Hotspots: the mean score *)

Lemma sum_bounds (l : list Q) :
  Forall (fun v => 0 <= v /\ v <= 1) l ->
  0 <= fold_right Qplus 0 l /\
  fold_right Qplus 0 l <= inject_Z (Z.of_nat (length l)).
Proof.
  induction 1 as [| v t [Hv0 Hv1] Ht [IH0 IH1]]; cbn [fold_right length].
  - split; apply Qle_refl.
  - rewrite Nat2Z.inj_succ. unfold Z.succ. rewrite inject_Z_plus.
    change (inject_Z 1) with 1. split; lraQ.
Qed.

Lemma mean_bounds (l : list Q) :
  l <> [] -> Forall (fun v => 0 <= v /\ v <= 1) l -> 0 <= mean l /\ mean l <= 1.
Proof.
  intros Hne Hall. destruct (sum_bounds Hall) as [H0 H1]. unfold mean.
  assert (Hn : 0 < inject_Z (Z.of_nat (length l))).
  { destruct l; [congruence |]. cbn [length]. rewrite Nat2Z.inj_succ.
    unfold Z.succ. rewrite inject_Z_plus.
    assert (0 <= inject_Z (Z.of_nat (length l))).
    { change 0 with (inject_Z 0). rewrite <- Zle_Qle. lia. }
    change (inject_Z 1) with 1. lraQ. }
  split.
  - apply Qle_shift_div_l; [exact Hn | lraQ].
  - apply Qle_shift_div_r; [exact Hn | lraQ].
Qed.

Lemma at2_in_range (m : list (list Q)) (r c : nat) :
  Forall (Forall (fun v => 0 <= v /\ v <= 1)) m ->
  0 <= at2 0 m r c /\ at2 0 m r c <= 1.
Proof.
  intros Hm. unfold at2.
  destruct (Nat.lt_ge_cases r (length m)) as [Hr | Hr].
  - assert (Hrow : Forall (fun v => 0 <= v /\ v <= 1) (nth r m [])).
    { rewrite Forall_forall in Hm. apply Hm. now apply nth_In. }
    destruct (Nat.lt_ge_cases c (length (nth r m []))) as [Hc | Hc].
    + rewrite Forall_forall in Hrow. apply Hrow. now apply nth_In.
    + rewrite (nth_overflow _ _ Hc). split; lraQ.
  - rewrite (nth_overflow m [] Hr). destruct c; cbn; split; lraQ.
Qed.

(** ** Hotspots: what the detector emits *)

Section DetectorFacts.

Variables (heat_map : list (list Q)) (labels : list (list nat)).
Variables (ambient maxC gamma min_frac max_frac : Q).

Let H := fst (shape heat_map).
Let W := snd (shape heat_map).
Let total := Z.of_nat (H * W).

Lemma hotspot_of_label_Some (label : nat) (hs : Hotspot) :
  hotspot_of_label heat_map labels ambient maxC gamma min_frac max_frac label
  = Some hs ->
  area_kept total min_frac max_frac
    (Z.of_nat (length (component labels H W label))) = true /\
  (box_x hs, box_y hs, box_w hs, box_h hs, pixels hs)
  = stats_of (component labels H W label) /\
  meanScore hs
  = mean (map (fun p => at2 0 heat_map (fst p) (snd p)) (component labels H W label)) /\
  tempC hs
  = score_to_temp (Q2R (meanScore hs)) (Q2R ambient) (Q2R maxC) (Q2R gamma).
Proof.
  unfold total, H, W, hotspot_of_label, stats_of, shape. cbn [fst snd].
  destruct (area_kept _ min_frac max_frac _) eqn:Ek; cbn [negb]; [| discriminate].
  destruct (length _ =? 0)%nat; [discriminate |].
  intros E. inversion E; subst; clear E. cbn. auto.
Qed.

(** A label is kept by the loop exactly when its area passes the filter. *)
Lemma hotspot_of_label_kept (label : nat) :
  hotspot_of_label heat_map labels ambient maxC gamma min_frac max_frac label
  <> None <->
  area_kept total min_frac max_frac
    (Z.of_nat (length (component labels H W label))) = true.
Proof.
  split.
  - destruct (hotspot_of_label _ _ _ _ _ _ _ _) as [hs |] eqn:E; [| congruence].
    intros _. now apply hotspot_of_label_Some in E.
  - unfold total, H, W, hotspot_of_label, stats_of, shape. cbn [fst snd].
    intros Hk. rewrite Hk. cbn [negb].
    apply area_kept_iff in Hk.
    pose proof (min_area_ge_1
                  (Z.of_nat (length heat_map * length (hd [] heat_map))) min_frac).
    rewrite length_map.
    destruct (length (component labels _ _ label)); [lia | cbn; discriminate].
Qed.

Lemma candidates_In (num_labels : nat) (hs : Hotspot) :
  In hs (candidates heat_map labels num_labels ambient maxC gamma min_frac max_frac) ->
  exists label,
    hotspot_of_label heat_map labels ambient maxC gamma min_frac max_frac label
    = Some hs.
Proof.
  unfold candidates. rewrite in_flat_map. intros (label & _ & Hin).
  exists label. destruct (hotspot_of_label _ _ _ _ _ _ _ _); [| destruct Hin].
  destruct Hin as [-> | []]. reflexivity.
Qed.

End DetectorFacts.

Lemma find_hotspots_In (cc : Labelling) (heat_map : list (list Q))
    (thr ambient maxC gamma min_frac max_frac : Q) (max_boxes : nat) (hs : Hotspot) :
  In hs (find_hotspots_from_thr cc heat_map thr ambient maxC gamma
           min_frac max_frac max_boxes) ->
  exists labels label,
    hotspot_of_label heat_map labels ambient maxC gamma min_frac max_frac label
    = Some hs.
Proof.
  unfold find_hotspots_from_thr.
  destruct (count_nonzero _ =? 0)%nat; [intros [] |].
  destruct (cc _) as [num_labels labels]. intros Hin.
  apply In_firstn_sort_desc in Hin. exists labels.
  eapply candidates_In; exact Hin.
Qed.

(** Every emitted hotspot has at least one pixel, a bounding box inside
    the frame and, when the scores lie in [[0, 1]], a mean score in
    [[0, 1]]; with [ambient <= maxC] and a non-negative [gamma] its
    temperature, evaluated over the reals, lies between [ambient] and
    [maxC] (the source's floating-point sum can end one rounding step
    above [maxC]). *)
Lemma emitted_hotspot_invariants (cc : Labelling) (heat_map : list (list Q))
    (thr ambient maxC gamma min_frac max_frac : Q) (max_boxes : nat) (hs : Hotspot) :
  Forall (Forall (fun v => 0 <= v /\ v <= 1)) heat_map ->
  In hs (find_hotspots_from_thr cc heat_map thr ambient maxC gamma
           min_frac max_frac max_boxes) ->
  (1 <= pixels hs)%Z /\
  (0 <= box_x hs /\ 0 <= box_y hs /\
   box_x hs + box_w hs <= Z.of_nat (snd (shape heat_map)) /\
   box_y hs + box_h hs <= Z.of_nat (fst (shape heat_map)))%Z /\
  (0 <= meanScore hs /\ meanScore hs <= 1) /\
  (ambient <= maxC -> 0 <= gamma ->
   (Q2R ambient <= tempC hs <= Q2R maxC)%R).
Proof.
  intros Hrange Hin. apply find_hotspots_In in Hin.
  destruct Hin as (labels & label & Hsome).
  apply hotspot_of_label_Some in Hsome.
  destruct Hsome as (Hk & Hstats & Hmean & Htemp).
  set (px := component labels (fst (shape heat_map)) (snd (shape heat_map)) label) in *.
  apply area_kept_iff in Hk.
  pose proof (min_area_ge_1 (Z.of_nat (fst (shape heat_map) * snd (shape heat_map))) min_frac) as Hmin.
  assert (Hne : px <> []).
  { intros E. rewrite E in Hk. cbn [length Z.of_nat] in Hk. lia. }
  assert (Hframe : Forall (fun p => (fst p < fst (shape heat_map))%nat
                                   /\ (snd p < snd (shape heat_map))%nat) px).
  { rewrite Forall_forall. intros p Hp. eapply component_in_frame; exact Hp. }
  pose proof (stats_of_in_frame Hne Hframe) as Hbox.
  rewrite <- Hstats in Hbox. cbn iota beta in Hbox.
  split; [lia |]. split; [lia |]. split.
  - rewrite Hmean. apply mean_bounds.
    + intros E. apply map_eq_nil in E. contradiction.
    + rewrite Forall_map, Forall_forall. intros p _. now apply at2_in_range.
  - intros Ha Hg. rewrite Htemp. apply score_to_temp_range.
    + now apply Qle_Rle.
    + apply Qle_Rle in Hg. unfold Q2R at 1 in Hg. cbn in Hg. lraR.
Qed.

(** ** Hotspots: the area band *)

Lemma min_frac_le_iff (total area : Z) :
  inject_Z total * default_min_frac <= inject_Z area <-> (total <= 10000 * area)%Z.
Proof.
  unfold Qle, Qmult, inject_Z, default_min_frac. cbn [Qnum Qden]. rewrite ?Pos.mul_1_l. lia.
Qed.

Lemma max_frac_le_iff (total area : Z) :
  inject_Z area <= inject_Z total * default_max_frac <-> (4 * area <= total)%Z.
Proof.
  unfold Qle, Qmult, inject_Z, default_max_frac. cbn [Qnum Qden]. rewrite ?Pos.mul_1_l. lia.
Qed.

Lemma max_frac_lt_iff (total area : Z) :
  inject_Z total * default_max_frac < inject_Z area <-> (total < 4 * area)%Z.
Proof.
  unfold Qlt, Qmult, inject_Z, default_max_frac. cbn [Qnum Qden]. rewrite ?Pos.mul_1_l. lia.
Qed.

(** C1 (counterexample).  In a frame of [15000] pixels the lower end of
    the band is [1e-4 * 15000 = 1.5]; a component of one pixel lies
    strictly below it and is emitted all the same, because the bound the
    source compares with is [max(1, int(1.5)) = 1]. *)
Lemma area_below_fraction_is_retained :
  map pixels
    (find_hotspots_from_thr single_region heat_one_hot_pixel 0.5 22 120 1.2
       default_min_frac default_max_frac default_max_boxes)
  = [1%Z] /\
  inject_Z 1 < default_min_frac * inject_Z (100 * 150).
Proof. split; [lazy; reflexivity | reflexivity]. Qed.

(** ** Hotspots: temperature under a negative exponent *)

Lemma score_to_temp_half_inverse :
  score_to_temp (Q2R 0.5) (Q2R 22) (Q2R 120) (Q2R (-1)) = 218%R.
Proof.
  unfold score_to_temp, npow.
  assert (Eh : Q2R 0.5 = (/ 2)%R) by (unfold Q2R; cbn; lraR).
  assert (Eg : Q2R (-1) = Ropp 1) by (unfold Q2R; cbn; lraR).
  assert (Ea : Q2R 22 = 22%R) by (unfold Q2R; cbn; lraR).
  assert (Em : Q2R 120 = 120%R) by (unfold Q2R; cbn; lraR).
  rewrite Eh, Eg, Ea, Em.
  assert (Ec : clipR (/ 2) 0 1 = (/ 2)%R).
  { unfold clipR, Rmin, Rmax.
    destruct (Rle_dec (/ 2) 0); [lraR |]. destruct (Rle_dec (/ 2) 1); lraR. }
  rewrite Ec. destruct (Req_dec_T (/ 2) 0); [lraR |].
  rewrite Rpower_Ropp, Rpower_1 by lraR. lraR.
Qed.

(** C10 (evaluation at the failing input).  [--gamma -1] reaches the
    detector unchanged.  On the frame with the warm square the detector
    then emits one hotspot of 100 pixels with mean score [0.5], whose
    temperature is [22 + 98 * 0.5 ** -1 = 218], above [maxC = 120]. *)
Theorem negative_gamma_temperature_above_maxC :
  let args := parse_args args_gamma_negative in
  let emitted :=
    find_hotspots_from_thr single_region heat_warm_square 0.5
      (ambient args) (maxC args) (gamma args)
      default_min_frac default_max_frac default_max_boxes in
  gamma args = -1 /\
  map pixels emitted = [100%Z] /\
  Forall (fun hs =>
            meanScore hs == 0.5 /\
            tempC hs = 218%R /\
            (Q2R (maxC args) < tempC hs)%R)
    emitted.
Proof.
  cbn zeta. change (gamma (parse_args args_gamma_negative)) with (-1).
  change (ambient (parse_args args_gamma_negative)) with 22.
  change (maxC (parse_args args_gamma_negative)) with 120.
  split; [reflexivity |]. split; [lazy; reflexivity |].
  assert (Hmean : forallb (fun hs => Qeq_bool (meanScore hs) 0.5)
                    (find_hotspots_from_thr single_region heat_warm_square 0.5
                       22 120 (-1) default_min_frac default_max_frac
                       default_max_boxes) = true) by (lazy; reflexivity).
  rewrite forallb_forall in Hmean. rewrite Forall_forall. intros hs Hin.
  specialize (Hmean hs Hin). apply Qeq_bool_eq in Hmean.
  apply find_hotspots_In in Hin. destruct Hin as (labels & label & Hsome).
  apply hotspot_of_label_Some in Hsome. destruct Hsome as (_ & _ & _ & Htemp).
  assert (E : tempC hs = 218%R).
  { rewrite Htemp, (Qeq_eqR _ _ Hmean). apply score_to_temp_half_inverse. }
  split; [exact Hmean |]. split; [exact E |].
  rewrite E. unfold Q2R. cbn. lraR.
Qed.

(** ** Worked instances *)

(** The score of a pixel is clipped to [[0, 1]]. *)
Lemma heat_score_range (frame : Frame) :
  Forall (Forall (fun v => 0 <= v /\ v <= 1)) (heat_score frame).
Proof.
  unfold heat_score. rewrite Forall_map, Forall_forall. intros row _.
  rewrite Forall_map, Forall_forall. intros [[b8 g8] r8] _.
  unfold heat_score_px. apply clip_bounds. lraQ.
Qed.

Lemma heat_warm_square_range :
  Forall (Forall (fun v => 0 <= v /\ v <= 1)) heat_warm_square.
Proof.
  unfold heat_warm_square. rewrite Forall_map, Forall_forall. intros r _.
  rewrite Forall_map, Forall_forall. intros c _.
  destruct (_ && _)%bool; split; lraQ.
Qed.

(** On the frame with the warm square, with the default exponent, the one
    emitted hotspot meets every bound. *)
Lemma emitted_hotspot_invariants_witness :
  map pixels
    (find_hotspots_from_thr single_region heat_warm_square 0.5 22 120 1.2
       default_min_frac default_max_frac default_max_boxes) = [100%Z] /\
  Forall
    (fun hs =>
       (1 <= pixels hs)%Z /\
       (0 <= box_x hs /\ 0 <= box_y hs /\
        box_x hs + box_w hs <= 64 /\ box_y hs + box_h hs <= 64)%Z /\
       (0 <= meanScore hs /\ meanScore hs <= 1) /\
       (Q2R 22 <= tempC hs <= Q2R 120)%R)
    (find_hotspots_from_thr single_region heat_warm_square 0.5 22 120 1.2
       default_min_frac default_max_frac default_max_boxes).
Proof.
  split; [lazy; reflexivity |].
  rewrite Forall_forall. intros hs Hin.
  destruct (@emitted_hotspot_invariants single_region heat_warm_square 0.5 22 120
              1.2 default_min_frac default_max_frac default_max_boxes hs
              heat_warm_square_range Hin) as (Hp & Hbox & Hmean & Htemp).
  split; [exact Hp |]. split; [exact Hbox |]. split; [exact Hmean |].
  apply Htemp; lraQ.
Defined.


(** ** More on clipping and truncation *)

Lemma clip_mono (x y lo hi : Q) : x <= y -> clip x lo hi <= clip y lo hi.
Proof.
  intros Hxy. unfold clip.
  destruct (Q.max_spec x lo) as [[H1 E1] | [H1 E1]];
    destruct (Q.max_spec y lo) as [[H2 E2] | [H2 E2]];
    destruct (Q.min_spec (Qmax x lo) hi) as [[H3 E3] | [H3 E3]];
    destruct (Q.min_spec (Qmax y lo) hi) as [[H4 E4] | [H4 E4]];
    lraQ.
Qed.

Lemma clip_below (x lo hi : Q) : lo <= hi -> x <= lo -> clip x lo hi == lo.
Proof.
  intros Hle Hx. unfold clip.
  destruct (Q.max_spec x lo) as [[H1 E1] | [H1 E1]];
    destruct (Q.min_spec (Qmax x lo) hi) as [[H3 E3] | [H3 E3]]; lraQ.
Qed.

Lemma clip_above (x lo hi : Q) : lo <= hi -> hi <= x -> clip x lo hi == hi.
Proof.
  intros Hle Hx. unfold clip.
  destruct (Q.max_spec x lo) as [[H1 E1] | [H1 E1]];
    destruct (Q.min_spec (Qmax x lo) hi) as [[H3 E3] | [H3 E3]]; lraQ.
Qed.

(** On non-negative numbers [int] is the floor. *)
Lemma int_of_nonneg (q : Q) : 0 <= q -> int_of q = Qfloor q.
Proof.
  destruct q as [n d]. unfold Qle, int_of, Qfloor. cbn [Qnum Qden].
  intros Hn. apply Z.quot_div_nonneg; lia.
Qed.

Lemma int_of_mono (p q : Q) : 0 <= p -> p <= q -> (int_of p <= int_of q)%Z.
Proof.
  intros Hp Hpq. rewrite !int_of_nonneg by lraQ. now apply Qfloor_resp_le.
Qed.

Lemma int_of_eq (p q : Q) : 0 <= p -> p == q -> int_of p = int_of q.
Proof.
  intros Hp Hpq. rewrite !int_of_nonneg by lraQ. now rewrite Hpq.
Qed.

Lemma int_of_range (q : Q) (n : Z) :
  0 <= q -> q <= inject_Z n -> (0 <= int_of q <= n)%Z.
Proof.
  intros H0 Hn. rewrite int_of_nonneg by exact H0. split.
  - change 0%Z with (Qfloor 0). now apply Qfloor_resp_le.
  - rewrite <- (Qfloor_Z n). now apply Qfloor_resp_le.
Qed.

(** ** Annotation colour *)

(** The clipped fraction that [temp_to_bgr] turns into a colour. *)
Lemma temp_to_bgr_unfold (tempC ambient maxC : Q) :
  exists frac : Q,
    0 <= frac /\ frac <= 1 /\
    temp_to_bgr tempC ambient maxC
    = (0%Z, int_of (255 * (1 - frac)), int_of (255 * frac)) /\
    frac == clip (if Qle_bool maxC ambient then 1
                  else (tempC - ambient) / (maxC - ambient)) 0 1.
Proof.
  eexists. split; [| split; [| split; [reflexivity | reflexivity]]];
    apply clip_bounds; lraQ.
Qed.

(** The colour of a box always has blue [0], green and red between [0]
    and [255], and green plus red equal to [254] or [255]. *)
Theorem temp_to_bgr_range (tempC ambient maxC : Q) :
  let '(b, g, r) := temp_to_bgr tempC ambient maxC in
  (b = 0 /\ 0 <= g <= 255 /\ 0 <= r <= 255 /\ 254 <= g + r <= 255)%Z.
Proof.
  destruct (temp_to_bgr_unfold tempC ambient maxC) as (frac & H0 & H1 & E & _).
  rewrite E.
  assert (Hg : 0 <= 255 * (1 - frac)) by lraQ.
  assert (Hr : 0 <= 255 * frac) by lraQ.
  pose proof (@int_of_range (255 * (1 - frac)) 255 Hg) as Rg.
  pose proof (@int_of_range (255 * frac) 255 Hr) as Rr.
  split; [reflexivity |].
  split; [apply Rg; change (inject_Z 255) with 255; lraQ |].
  split; [apply Rr; change (inject_Z 255) with 255; lraQ |].
  rewrite !int_of_nonneg by assumption.
  pose proof (Qfloor_le (255 * (1 - frac))) as Lg.
  pose proof (Qlt_floor (255 * (1 - frac))) as Ug.
  pose proof (Qfloor_le (255 * frac)) as Lr.
  pose proof (Qlt_floor (255 * frac)) as Ur.
  rewrite inject_Z_plus in Ug, Ur. change (inject_Z 1) with 1 in Ug, Ur.
  set (fg := Qfloor (255 * (1 - frac))) in *.
  set (fr := Qfloor (255 * frac)) in *.
  assert (Hs1 : inject_Z (fg + fr) <= inject_Z 255).
  { rewrite inject_Z_plus. change (inject_Z 255) with 255. lraQ. }
  assert (Hs2 : inject_Z 253 < inject_Z (fg + fr)).
  { rewrite inject_Z_plus. change (inject_Z 253) with 253. lraQ. }
  rewrite <- Zle_Qle in Hs1. rewrite <- Zlt_Qlt in Hs2. lia.
Qed.

(** At or below [ambient] the box is pure green, at or above [maxC] pure
    red; when [maxC] does not exceed [ambient] it is always pure red. *)
Theorem temp_to_bgr_endpoints (tempC ambient maxC : Q) :
  (maxC <= ambient -> temp_to_bgr tempC ambient maxC = (0, 0, 255)%Z) /\
  (ambient < maxC -> tempC <= ambient ->
   temp_to_bgr tempC ambient maxC = (0, 255, 0)%Z) /\
  (ambient < maxC -> maxC <= tempC ->
   temp_to_bgr tempC ambient maxC = (0, 0, 255)%Z).
Proof.
  destruct (temp_to_bgr_unfold tempC ambient maxC) as (frac & H0 & H1 & E & Ef).
  assert (Hone : frac == 1 -> temp_to_bgr tempC ambient maxC = (0, 0, 255)%Z).
  { intros E1. rewrite E. f_equal; [f_equal |].
    - rewrite (@int_of_eq (255 * (1 - frac)) 0) by lraQ. reflexivity.
    - rewrite (@int_of_eq (255 * frac) 255) by lraQ. reflexivity. }
  assert (Hzero : frac == 0 -> temp_to_bgr tempC ambient maxC = (0, 255, 0)%Z).
  { intros E0. rewrite E. f_equal; [f_equal |].
    - rewrite (@int_of_eq (255 * (1 - frac)) 255) by lraQ. reflexivity.
    - rewrite (@int_of_eq (255 * frac) 0) by lraQ. reflexivity. }
  split; [| split].
  - intros Hle. apply Hone. rewrite Ef.
    apply Qle_bool_iff in Hle. rewrite Hle. apply clip_inside; lraQ.
  - intros Hlt Ht. apply Hzero. rewrite Ef.
    destruct (Qle_bool maxC ambient) eqn:Eb; [apply Qle_bool_iff in Eb; lraQ |].
    apply clip_below; [lraQ |].
    apply Qle_shift_div_r; lraQ.
  - intros Hlt Ht. apply Hone. rewrite Ef.
    destruct (Qle_bool maxC ambient) eqn:Eb; [apply Qle_bool_iff in Eb; lraQ |].
    apply clip_above; [lraQ |].
    apply Qle_shift_div_l; lraQ.
Qed.

(** A warmer hotspot is never drawn less red or more green. *)
Theorem temp_to_bgr_monotone (t1 t2 ambient maxC : Q) :
  t1 <= t2 ->
  (snd (temp_to_bgr t1 ambient maxC) <= snd (temp_to_bgr t2 ambient maxC))%Z /\
  (snd (fst (temp_to_bgr t2 ambient maxC))
   <= snd (fst (temp_to_bgr t1 ambient maxC)))%Z.
Proof.
  intros Ht.
  destruct (temp_to_bgr_unfold t1 ambient maxC) as (f1 & A0 & A1 & E1 & Ef1).
  destruct (temp_to_bgr_unfold t2 ambient maxC) as (f2 & B0 & B1 & E2 & Ef2).
  assert (Hf : f1 <= f2).
  { rewrite Ef1, Ef2. apply clip_mono.
    destruct (Qle_bool maxC ambient) eqn:Eb; [lraQ |].
    assert (Hd : 0 < maxC - ambient).
    { destruct (Qlt_le_dec ambient maxC) as [H | H]; [lraQ |].
      apply Qle_bool_iff in H. congruence. }
    unfold Qdiv. apply Qmult_le_compat_r; [lraQ |].
    apply Qinv_le_0_compat. lraQ. }
  rewrite E1, E2. cbn [fst snd]. split; apply int_of_mono; lraQ.
Qed.

Lemma temp_to_bgr_monotone_witness :
  (snd (temp_to_bgr 40 22 120) <= snd (temp_to_bgr 90 22 120))%Z /\
  (snd (fst (temp_to_bgr 90 22 120)) <= snd (fst (temp_to_bgr 40 22 120)))%Z.
Proof.
  apply (@temp_to_bgr_monotone 40 90 22 120). vm_compute. discriminate.
Defined.

(** ** Score to temperature: the two ends *)

Lemma clipR_at_least_one (s : R) : (1 <= s)%R -> clipR s 0 1 = 1%R.
Proof.
  intros H. unfold clipR, Rmin, Rmax.
  destruct (Rle_dec s 0); [lraR |]. destruct (Rle_dec s 1); lraR.
Qed.

Lemma clipR_at_most_zero (s : R) : (s <= 0)%R -> clipR s 0 1 = 0%R.
Proof.
  intros H. unfold clipR, Rmin, Rmax.
  destruct (Rle_dec s 0); [| lraR]. destruct (Rle_dec 0 1); lraR.
Qed.

(** A score of [1] or more maps to [maxC] whatever the exponent; with a
    positive exponent a score of [0] or less maps to [ambient]; with the
    exponent [0] every score maps to [maxC]. *)
Theorem score_to_temp_ends (ambient maxC gamma : R) :
  (forall s, (1 <= s)%R -> score_to_temp s ambient maxC gamma = maxC) /\
  ((0 < gamma)%R ->
   forall s, (s <= 0)%R -> score_to_temp s ambient maxC gamma = ambient) /\
  (gamma = 0%R -> forall s, score_to_temp s ambient maxC gamma = maxC).
Proof.
  split; [| split].
  - intros s Hs. unfold score_to_temp. rewrite (clipR_at_least_one Hs).
    unfold npow. destruct (Req_dec_T 1 0); [lraR |].
    rewrite Rpower_one_base. lraR.
  - intros Hg s Hs. unfold score_to_temp. rewrite (clipR_at_most_zero Hs).
    unfold npow. destruct (Req_dec_T 0 0); [| lraR].
    destruct (Req_dec_T gamma 0); lraR.
  - intros -> s. unfold score_to_temp, npow.
    destruct (Req_dec_T (clipR s 0 1) 0).
    + destruct (Req_dec_T 0 0); lraR.
    + unfold Rpower. rewrite Rmult_0_l, exp_0. lraR.
Qed.

(** ** Normalisation: ends and order *)

Lemma percentile_values_ordered (p_low p_high : Q) (flat : list Q) :
  fst (percentile_values p_low p_high flat)
  < snd (percentile_values p_low p_high flat).
Proof.
  unfold percentile_values.
  match goal with |- context [Qle_bool ?a ?b] => destruct (Qle_bool a b) eqn:E end;
    cbn [fst snd]; [lraQ |].
  match type of E with Qle_bool ?a ?b = false =>
    destruct (Qlt_le_dec b a) as [H | H]; [exact H |] end.
  apply Qle_bool_iff in H. congruence.
Qed.

Lemma normalize_facts (lo hi : Q) :
  lo < hi ->
  normalize lo hi lo == 0 /\ normalize lo hi hi == 1 /\
  (forall v, v <= lo -> normalize lo hi v == 0) /\
  (forall v, hi <= v -> normalize lo hi v == 1) /\
  (forall v1 v2, v1 <= v2 -> normalize lo hi v1 <= normalize lo hi v2).
Proof.
  intros Hlt. assert (Hd : 0 < hi - lo) by lraQ.
  assert (Hbelow : forall v, v <= lo -> normalize lo hi v == 0).
  { intros v Hv. unfold normalize. apply clip_below; [lraQ |].
    apply Qle_shift_div_r; lraQ. }
  assert (Habove : forall v, hi <= v -> normalize lo hi v == 1).
  { intros v Hv. unfold normalize. apply clip_above; [lraQ |].
    apply Qle_shift_div_l; lraQ. }
  split; [apply Hbelow; lraQ |]. split; [apply Habove; lraQ |].
  split; [exact Hbelow |]. split; [exact Habove |].
  intros v1 v2 Hv. unfold normalize. apply clip_mono.
  unfold Qdiv. apply Qmult_le_compat_r; [lraQ |].
  apply Qinv_le_0_compat. lraQ.
Qed.

(** With the thresholds of any frame, a score at or below the low
    threshold is normalised to [0], one at or above the high threshold
    to [1], and a larger score never gets a smaller normalised value. *)
Theorem normalize_ends_and_order (p_low p_high : Q) (flat : list Q) :
  let lo := fst (percentile_values p_low p_high flat) in
  let hi := snd (percentile_values p_low p_high flat) in
  (forall v, v <= lo -> normalize lo hi v == 0) /\
  (forall v, hi <= v -> normalize lo hi v == 1) /\
  (forall v1 v2, v1 <= v2 -> normalize lo hi v1 <= normalize lo hi v2).
Proof.
  intros lo hi.
  destruct (normalize_facts (percentile_values_ordered p_low p_high flat))
    as (_ & _ & Hb & Ha & Hm).
  repeat split; assumption.
Qed.

(** ** Hotspots: the largest [max_boxes] *)

Lemma StronglySorted_firstn {A} (R : A -> A -> Prop) (n : nat) (l : list A) :
  StronglySorted R l -> StronglySorted R (firstn n l).
Proof.
  intros Hs. revert n. induction Hs as [| a l Hl IH Ha]; intros n.
  - rewrite firstn_nil. constructor.
  - destruct n; cbn [firstn]; [constructor |].
    constructor; [apply IH |].
    rewrite Forall_forall in *. intros b Hb. apply Ha.
    rewrite <- (firstn_skipn n l). apply in_or_app. now left.
Qed.

Lemma StronglySorted_firstn_skipn {A} (R : A -> A -> Prop) (n : nat) (l : list A) :
  StronglySorted R l ->
  forall a b, In a (firstn n l) -> In b (skipn n l) -> R a b.
Proof.
  intros Hs. revert n. induction Hs as [| c l Hl IH Hc]; intros n a b Ha Hb.
  - rewrite firstn_nil in Ha. destruct Ha.
  - destruct n; cbn [firstn skipn] in *; [destruct Ha |].
    destruct Ha as [-> | Ha].
    + rewrite Forall_forall in Hc. apply Hc.
      rewrite <- (firstn_skipn n l). apply in_or_app. now right.
    + eapply IH; eassumption.
Qed.

Lemma find_hotspots_length (cc : Labelling) (heat_map : list (list Q))
    (thr ambient maxC gamma min_frac max_frac : Q) (max_boxes : nat) :
  (length (find_hotspots_from_thr cc heat_map thr ambient maxC gamma
             min_frac max_frac max_boxes) <= max_boxes)%nat.
Proof.
  unfold find_hotspots_from_thr.
  destruct (count_nonzero _ =? 0)%nat; [cbn; lia |].
  destruct (cc _) as [num_labels labels]. apply firstn_le_length.
Qed.

(** The detector emits at most [max_boxes] hotspots, largest first; each
    is one the loop over labels kept, and every kept one that is left out
    has no more pixels than any emitted one. *)
Theorem find_hotspots_largest_first (cc : Labelling) (heat_map : list (list Q))
    (thr ambient maxC gamma min_frac max_frac : Q) (max_boxes : nat) :
  let emitted :=
    find_hotspots_from_thr cc heat_map thr ambient maxC gamma
      min_frac max_frac max_boxes in
  let kept :=
    candidates heat_map (snd (cc (mask_of heat_map thr)))
      (fst (cc (mask_of heat_map thr))) ambient maxC gamma min_frac max_frac in
  (length emitted <= max_boxes)%nat /\
  StronglySorted (desc pixels) emitted /\
  (forall hs, In hs emitted -> In hs kept) /\
  (count_nonzero (mask_of heat_map thr) <> 0%nat ->
   exists dropped,
     Permutation kept (emitted ++ dropped) /\
     forall hs hs', In hs emitted -> In hs' dropped ->
                    (pixels hs' <= pixels hs)%Z).
Proof.
  intros emitted kept. split; [apply find_hotspots_length |].
  unfold emitted, kept, find_hotspots_from_thr.
  destruct (count_nonzero _ =? 0)%nat eqn:Ec.
  - split; [constructor |]. split; [intros hs [] |].
    apply Nat.eqb_eq in Ec. intros Hne. contradiction.
  - destruct (cc _) as [num_labels labels]. cbn [fst snd].
    set (l := candidates heat_map labels num_labels ambient maxC gamma
                min_frac max_frac).
    split; [apply StronglySorted_firstn, sort_desc_sorted |].
    split; [intros hs; apply In_firstn_sort_desc |].
    intros _. exists (skipn max_boxes (sort_desc pixels l)). split.
    + rewrite firstn_skipn. apply sort_desc_perm.
    + intros hs hs' Hin Hin'.
      apply (StronglySorted_firstn_skipn max_boxes (sort_desc_sorted pixels l)
               hs hs' Hin Hin').
Qed.

(** ** Hotspots: nothing above the threshold *)

Lemma count_nonzero_below (heat_map : list (list Q)) (thr : Q) :
  Forall (Forall (fun v => v < thr)) heat_map ->
  count_nonzero (mask_of heat_map thr) = 0%nat.
Proof.
  intros Hall. unfold count_nonzero, mask_of.
  rewrite <- concat_map.
  assert (Hc : Forall (fun v => v < thr) (concat heat_map)).
  { rewrite Forall_forall in *. intros v Hv. apply in_concat in Hv.
    destruct Hv as (row & Hrow & Hv). specialize (Hall row Hrow).
    rewrite Forall_forall in Hall. now apply Hall. }
  induction Hc as [| v rest Hv Hrest IH]; cbn; [reflexivity |].
  destruct (Qle_bool thr v) eqn:E; [| exact IH].
  apply Qle_bool_iff in E. lraQ.
Qed.

(** When every score is below the threshold the detector emits nothing,
    whatever the labelling would return. *)
Theorem find_hotspots_none_below_threshold (cc : Labelling)
    (heat_map : list (list Q))
    (thr ambient maxC gamma min_frac max_frac : Q) (max_boxes : nat) :
  Forall (Forall (fun v => v < thr)) heat_map ->
  find_hotspots_from_thr cc heat_map thr ambient maxC gamma
    min_frac max_frac max_boxes = [].
Proof.
  intros Hall. unfold find_hotspots_from_thr.
  now rewrite (count_nonzero_below Hall).
Qed.

Lemma find_hotspots_none_below_threshold_witness :
  find_hotspots_from_thr single_region heat_warm_square 0.75 22 120 1.2
    default_min_frac default_max_frac default_max_boxes = [].
Proof.
  apply (@find_hotspots_none_below_threshold single_region heat_warm_square
           0.75 22 120 1.2 default_min_frac default_max_frac default_max_boxes).
  unfold heat_warm_square. rewrite Forall_map, Forall_forall. intros r _.
  rewrite Forall_map, Forall_forall. intros c _.
  destruct (_ && _)%bool; reflexivity.
Defined.

(** ** The frame loop *)

Lemma StronglySorted_app {A} (R : A -> A -> Prop) (l1 l2 : list A) :
  StronglySorted R l1 -> StronglySorted R l2 ->
  (forall a b, In a l1 -> In b l2 -> R a b) ->
  StronglySorted R (l1 ++ l2).
Proof.
  intros H1 H2 H12. induction H1 as [| a l Hl IH Ha]; cbn [app]; [exact H2 |].
  constructor.
  - apply IH. intros x y Hx Hy. apply H12; [now right | exact Hy].
  - apply Forall_app. split; [exact Ha |].
    rewrite Forall_forall. intros y Hy. apply H12; [now left | exact Hy].
Qed.

Lemma same_index_sorted (start : Z) (l : list TimedHotspot) :
  Forall (fun th => frameIdx th = start) l ->
  StronglySorted (fun a b => (frameIdx a <= frameIdx b)%Z) l.
Proof.
  induction 1 as [| th l E Hl IH]; constructor; [exact IH |].
  eapply Forall_impl; [| exact Hl]. intros th' E'. cbn in E'. lia.
Qed.

Lemma of_frame_same_index (k i : Z) (l : list TimedHotspot) :
  Forall (fun th => frameIdx th = k) l ->
  of_frame i l = if (k =? i)%Z then l else [].
Proof.
  unfold of_frame. induction 1 as [| th l E Hl IH]; cbn [filter].
  - now destruct (k =? i)%Z.
  - rewrite E, IH. now destruct (k =? i)%Z.
Qed.

Lemma of_frame_below (lo i : Z) (l : list TimedHotspot) :
  Forall (fun th => (lo <= frameIdx th)%Z) l -> (i < lo)%Z -> of_frame i l = [].
Proof.
  unfold of_frame. intros Hl Hi. induction Hl as [| th l E Hl IH]; cbn [filter];
    [reflexivity |].
  destruct (frameIdx th =? i)%Z eqn:Eq; [apply Z.eqb_eq in Eq; lia | exact IH].
Qed.

Section LoopFacts.

Variable blur : list (list Q) -> list (list Q).
Variable cc : Labelling.
Variables (args : Args) (fps : Q).

Lemma frame_hotspots_length (frame : Frame) :
  (length (frame_hotspots blur cc args frame) <= default_max_boxes)%nat.
Proof. unfold frame_hotspots. apply find_hotspots_length. Qed.

Lemma frame_loop_spec (frames : list Frame) (start : Z)
    (acc : list TimedHotspot) :
  exists added,
    frame_loop blur cc args fps frames start acc
    = ((start + Z.of_nat (length frames))%Z, acc ++ added) /\
    stamped_from blur cc args fps start frames added.
Proof.
  revert start acc. induction frames as [| frame rest IH]; intros start acc.
  - exists []. cbn [frame_loop length]. rewrite Z.add_0_r, app_nil_r.
    split; [reflexivity |]. split; [constructor |]. split; [constructor |].
    split; [intros i Hi; cbn in Hi; lia | intros i; cbn; lia].
  - cbn [frame_loop].
    set (stamped := map (fun hs => {| spot := hs; frameIdx := start;
                                      tSec := inject_Z start / fps |})
                      (frame_hotspots blur cc args frame)).
    destruct (IH (start + 1)%Z (acc ++ stamped))
      as (added & E & Hf & Hs & Hper & Hlen).
    exists (stamped ++ added). split.
    { rewrite E. f_equal; [cbn [length]; lia | now rewrite app_assoc]. }
    assert (Hidx : Forall (fun th => frameIdx th = start) stamped).
    { unfold stamped. rewrite Forall_map, Forall_forall. now intros hs _. }
    assert (Htime : Forall (fun th => tSec th = inject_Z (frameIdx th) / fps)
                      stamped).
    { unfold stamped. rewrite Forall_map, Forall_forall. now intros hs _. }
    assert (Hspots : map spot stamped = frame_hotspots blur cc args frame).
    { unfold stamped. rewrite map_map. cbn [spot]. apply map_id. }
    assert (Hlater : Forall (fun th => (start + 1 <= frameIdx th)%Z) added).
    { eapply Forall_impl; [| exact Hf]. cbn. intros th [B _]. lia. }
    split; [| split; [| split]].
    + apply Forall_app. split.
      * rewrite Forall_forall in *. intros th Hin.
        rewrite (Hidx th Hin). split; [cbn [length]; lia |].
        rewrite <- (Hidx th Hin). now apply Htime.
      * eapply Forall_impl; [| exact Hf]. intros th (B & T).
        cbn [length]. split; [lia | exact T].
    + apply StronglySorted_app;
        [now apply (same_index_sorted (start := start)) | exact Hs |].
      intros a b Ha Hb. rewrite Forall_forall in Hidx, Hlater.
      rewrite (Hidx a Ha). specialize (Hlater b Hb). lia.
    + intros i Hi. unfold of_frame. rewrite filter_app. fold (of_frame i stamped).
      fold (of_frame i added). rewrite (of_frame_same_index i Hidx).
      destruct (start =? i)%Z eqn:Ei.
      * apply Z.eqb_eq in Ei. subst i.
        rewrite (of_frame_below Hlater) by lia.
        rewrite app_nil_r, Hspots, Z.sub_diag. reflexivity.
      * apply Z.eqb_neq in Ei. cbn [app]. rewrite Hper by (cbn [length] in Hi; lia).
        replace (Z.to_nat (i - start)) with (S (Z.to_nat (i - (start + 1)))) by lia.
        reflexivity.
    + intros i. unfold of_frame. rewrite filter_app. fold (of_frame i stamped).
      fold (of_frame i added). rewrite (of_frame_same_index i Hidx), length_app.
      destruct (start =? i)%Z eqn:Ei.
      * apply Z.eqb_eq in Ei. subst i.
        rewrite (of_frame_below Hlater) by lia.
        unfold stamped. rewrite length_map. cbn [length].
        pose proof (frame_hotspots_length frame). lia.
      * cbn [length]. apply Hlen.
Qed.

End LoopFacts.

(** The loop numbers the frames from [0]: it ends with the frame counter
    equal to the number of frames; every accumulated hotspot carries the
    index of an existing frame and the time stamp [index / fps]; the list
    is in frame order; the entries of each frame are exactly the hotspots
    the detector emitted for that frame, in its order, hence at most [20]
    per frame. *)
Theorem frame_loop_accumulates (blur : list (list Q) -> list (list Q))
    (cc : Labelling) (args : Args) (fps : Q) (frames : list Frame) :
  fst (frame_loop blur cc args fps frames 0 []) = Z.of_nat (length frames) /\
  stamped_from blur cc args fps 0 frames
    (snd (frame_loop blur cc args fps frames 0 [])).
Proof.
  destruct (frame_loop_spec blur cc args fps frames 0 []) as (added & E & H).
  rewrite E. cbn [fst snd app]. split; [lia | exact H].
Qed.

(** ** A flat score map *)

(** When the smoothed score map of a frame has the same value everywhere
    (an all-black frame, for one), the repaired high threshold lies above
    every score and the frame yields no hotspot. *)
Theorem constant_map_has_no_hotspot (blur : list (list Q) -> list (list Q))
    (cc : Labelling) (args : Args) (frame : Frame) (c : Q) :
  Forall (Forall (fun v => v == c)) (blur (heat_score frame)) ->
  frame_hotspots blur cc args frame = [].
Proof.
  intros Hc. unfold frame_hotspots, find_hotspots_from_thr.
  set (heat_used := blur (heat_score frame)) in *.
  set (flat := concat heat_used).
  rewrite count_nonzero_below; [reflexivity |].
  assert (Hflat : forall v, In v flat -> v == c).
  { intros v Hv. apply in_concat in Hv. destruct Hv as (row & Hrow & Hv).
    rewrite Forall_forall in Hc. specialize (Hc row Hrow).
    rewrite Forall_forall in Hc. now apply Hc. }
  rewrite Forall_forall. intros row Hrow. rewrite Forall_forall. intros v Hv.
  assert (Hin : In v flat) by (apply in_concat; exists row; now split).
  assert (Hne : flat <> []) by (intros E; rewrite E in Hin; destruct Hin).
  destruct (percentile_values_from_map (pLow args) (pHigh args) Hne) as [Hlo Hhi].
  pose proof (percentile_values_ordered (pLow args) (pHigh args) flat) as Hord.
  pose proof (Hflat _ Hlo) as Elo. pose proof (Hflat _ Hin) as Ev.
  destruct Hhi as [Hhi | Ehi].
  - pose proof (Hflat _ Hhi) as Ehi. lraQ.
  - lraQ.
Qed.

Lemma constant_map_has_no_hotspot_witness :
  frame_hotspots (fun m => m) single_region
    (parse_args (default_args "in.mp4" "out.mp4")) black_frame = [].
Proof.
  apply (@constant_map_has_no_hotspot (fun m => m) single_region
           (parse_args (default_args "in.mp4" "out.mp4")) black_frame 0).
  repeat constructor.
Defined.

(** ** The score of a pixel *)

Ltac nraQ := Lqa.nra.

Lemma channel_range (v : byte) : 0 <= channel v /\ channel v <= 1.
Proof. destruct v; split; vm_compute; discriminate. Qed.

Lemma channel_zero (v : byte) : channel v == 0 -> v = x00.
Proof.
  destruct v; try reflexivity; intros H; vm_compute in H; discriminate H.
Qed.

(** A pixel scores [0] exactly when it is black. *)
Theorem heat_score_zero_iff_black (px : Pixel) :
  heat_score_px px == 0 <-> px = (x00, x00, x00).
Proof.
  split; [| intros ->; reflexivity].
  destruct px as [[b8 g8] r8]. unfold heat_score_px.
  destruct (channel_range b8) as [Hb0 Hb1].
  destruct (channel_range g8) as [Hg0 Hg1].
  destruct (channel_range r8) as [Hr0 Hr1].
  pose proof (@channel_zero b8) as Zb.
  pose proof (@channel_zero g8) as Zg.
  pose proof (@channel_zero r8) as Zr.
  set (b := channel b8) in *. set (g := channel g8) in *.
  set (r := channel r8) in *.
  set (cmax := Qmax (Qmax r g) b). set (cmin := Qmin (Qmin r g) b).
  assert (Hcm : cmin <= cmax /\ 0 <= cmax).
  { unfold cmax, cmin.
    pose proof (Q.le_max_l (Qmax r g) b). pose proof (Q.le_max_l r g).
    pose proof (Q.le_min_l (Qmin r g) b). pose proof (Q.le_min_l r g).
    split; lraQ. }
  destruct Hcm as [Hcm Hc0].
  assert (Hsat : 0 <= (cmax - cmin) / (cmax + 0.000001)).
  { apply Qle_shift_div_l; lraQ. }
  assert (Hrd : 0 <= r / (g + b + 0.0001)).
  { apply Qle_shift_div_l; lraQ. }
  assert (Hwb : 0 <= Qmax (r - Qmax g b) 0) by apply Q.le_max_r.
  revert Hsat Hrd Hwb.
  generalize ((cmax - cmin) / (cmax + 0.000001)) (r / (g + b + 0.0001))
             (Qmax (r - Qmax g b) 0).
  intros sat red_dom warm_boost Hsat Hrd Hwb Hz.
  set (luma := 0.2126 * r + 0.7152 * g + 0.0722 * b) in *.
  assert (Hluma : luma <= 0).
  { destruct (Qlt_le_dec 0 luma) as [Hpos | Hle]; [| exact Hle].
    exfalso.
    assert (H1 : 0.5 * luma <= luma * (0.5 + 0.5 * sat)) by nraQ.
    assert (H2 : 0.25 * luma <= luma * (0.5 + 0.5 * sat) * (0.5 + 0.5 * red_dom))
      by nraQ.
    revert Hz. unfold clip.
    set (score := luma * (0.5 + 0.5 * sat) * (0.5 + 0.5 * red_dom) + warm_boost).
    assert (Hs : 0 < score) by (unfold score; lraQ).
    destruct (Q.max_spec score 0) as [[H3 E3] | [H3 E3]];
      destruct (Q.min_spec (Qmax score 0) 1) as [[H4 E4] | [H4 E4]];
      intros Hz; lraQ. }
  assert (Er : r == 0) by (unfold luma in Hluma; lraQ).
  assert (Eg : g == 0) by (unfold luma in Hluma; lraQ).
  assert (Eb : b == 0) by (unfold luma in Hluma; lraQ).
  now rewrite (Zb Eb), (Zg Eg), (Zr Er).
Qed.

(** ** The summary of a successful run *)



(** ** The processor after the HTTP layer *)

(** The values [upload] hands over are left as they are by [parse_args]:
    its clipping and its repair of [pHigh] change nothing any more. *)
Theorem parse_args_keeps_uploaded_values (f : Form) (a : Args) :
  let u := upload f a in
  pLow (parse_args u) == pLow u /\
  pHigh (parse_args u) == pHigh u /\
  alpha (parse_args u) == alpha u /\
  gamma (parse_args u) = gamma u.
Proof.
  cbn zeta. cbn -[clip _clamp Qmin Qle_bool].
  assert (HL := @clamp_bounds (form_pLow f) 0 0.999).
  assert (HH := @clamp_bounds (form_pHigh f) 0 0.999).
  assert (HA := @clamp_bounds (form_alpha f) 0 1).
  destruct HL as [HL0 HL1]; [lraQ |]. destruct HH as [HH0 HH1]; [lraQ |].
  destruct HA as [HA0 HA1]; [lraQ |].
  set (p_low := _clamp (form_pLow f) 0 0.999) in *.
  set (p_high := _clamp (form_pHigh f) 0 0.999) in *.
  set (p_high' := if Qle_bool p_high p_low then Qmin (p_low + 0.01) 0.999 else p_high).
  assert (HP : 0 <= p_high' /\ p_high' <= 0.999 /\
               (p_high' <= p_low -> p_low == 0.999 /\ p_high' == 0.999)).
  { unfold p_high'. destruct (Qle_bool p_high p_low) eqn:E.
    - destruct (Q.min_spec (p_low + 0.01) 0.999) as [[H1 E1] | [H1 E1]];
        repeat split; lraQ.
    - assert (p_low < p_high).
      { destruct (Qlt_le_dec p_low p_high) as [H | H]; [exact H |].
        apply Qle_bool_iff in H. congruence. }
      repeat split; lraQ. }
  destruct HP as (HP0 & HP1 & HPcap).
  assert (EL : clip p_low 0 0.999 == p_low) by (apply clip_inside; lraQ).
  assert (EH : clip p_high' 0 0.999 == p_high') by (apply clip_inside; lraQ).
  split; [exact EL |]. split.
  - destruct (Qle_bool (clip p_high' 0 0.999) (clip p_low 0 0.999)) eqn:E;
      [| exact EH].
    apply Qle_bool_iff in E. destruct HPcap as [Ecap1 Ecap2]; [lraQ |].
    destruct (Q.min_spec (clip p_low 0 0.999 + 0.01) 0.999) as [[H1 E1] | [H1 E1]];
      lraQ.
  - split; [apply clip_inside; lraQ | reflexivity].
Qed.

(** ** Progress lines *)

(** During a run of [n] frames a progress line is printed after every
    30th frame and, when the decoder reported a frame count that is
    reached and is no multiple of 30, once more after that frame: the
    number of lines is [n div 30], plus one in that case. *)
Theorem progress_lines_count (total_frames : Z) (n : nat) :
  Z.of_nat (length (progress_lines total_frames n))
  = (Z.of_nat n / 30
     + (if (0 <? total_frames) && (total_frames <=? Z.of_nat n)
           && negb (total_frames mod 30 =? 0)
        then 1 else 0))%Z.
Proof.
  unfold progress_lines. induction n as [| n IH].
  - cbn [seq map filter length]. destruct (0 <? total_frames)%Z eqn:E; cbn.
    + apply Z.ltb_lt in E.
      destruct (total_frames <=? 0)%Z eqn:E'; [apply Z.leb_le in E'; lia |].
      reflexivity.
    + reflexivity.
  - rewrite seq_S, map_app, filter_app, length_app, Nat2Z.inj_add, IH.
    cbn [map filter Nat.add]. unfold progress_due.
    replace (Z.of_nat (1 + n)) with (Z.of_nat n + 1)%Z by lia.
    replace (Z.of_nat (S n)) with (Z.of_nat n + 1)%Z by lia.
    set (m := Z.of_nat n) in *. assert (Hm : (0 <= m)%Z) by (unfold m; lia).
    clearbody m. clear IH.
    destruct (0 <? total_frames)%Z eqn:E0; cbn [andb];
      destruct ((m + 1) mod 30 =? 0)%Z eqn:E30; cbn [orb];
      try destruct (m + 1 =? total_frames)%Z eqn:Et;
      cbn [length];
      repeat match goal with
        | |- context [(?a <=? ?b)%Z] => destruct (Z.leb_spec a b)
        | |- context [(?a =? ?b)%Z] => destruct (Z.eqb_spec a b)
        end; cbn [negb andb];
      rewrite ?Z.ltb_lt, ?Z.ltb_ge, ?Z.eqb_eq, ?Z.eqb_neq in *;
      try (Z.div_mod_to_equations; lia).
Qed.

(** ** Jobs *)

Lemma jobs_get_update_same (jobs : Jobs) (job_id : string) (f : Job -> Job) :
  jobs_get (jobs_update jobs job_id f) job_id
  = option_map f (jobs_get jobs job_id).
Proof.
  induction jobs as [| [k j] rest IH]; cbn; [reflexivity |].
  destruct (String.eqb k job_id) eqn:E; cbn; rewrite E; [reflexivity | exact IH].
Qed.

Lemma jobs_get_update_other (jobs : Jobs) (job_id other : string) (f : Job -> Job) :
  other <> job_id ->
  jobs_get (jobs_update jobs job_id f) other = jobs_get jobs other.
Proof.
  intros Hne. induction jobs as [| [k j] rest IH]; cbn; [reflexivity |].
  destruct (String.eqb k job_id) eqn:E; cbn.
  - apply String.eqb_eq in E. subst k.
    destruct (String.eqb job_id other) eqn:E'; [| reflexivity].
    apply String.eqb_eq in E'. congruence.
  - destruct (String.eqb k other); [reflexivity | exact IH].
Qed.

Lemma jobs_update_keys (jobs : Jobs) (job_id : string) (f : Job -> Job) :
  map fst (jobs_update jobs job_id f) = map fst jobs.
Proof.
  induction jobs as [| [k j] rest IH]; cbn; [reflexivity |].
  destruct (String.eqb k job_id); cbn; [reflexivity | now rewrite IH].
Qed.

(** The entry of the job once [run_job] returns. *)
Lemma run_job_entry (processor_present : bool) (launch : Launch)
    (t_start t_end : Q) (jobs : Jobs) (job_id : string) (j : Job) :
  jobs_get jobs job_id = Some j ->
  jobs_get (run_job processor_present launch t_start t_end jobs job_id) job_id
  = Some
      (if negb processor_present then
         set_status error (Some "thermal_processor.py not found"%string) t_end
           (set_running t_start j)
       else
         match launch with
         | LaunchFailed e =>
             set_status error
               (Some ("Failed to start thermal_processor: " ++ e)%string) t_end
               (set_running t_start j)
         | Ran lines rc =>
             if (rc =? 0)%Z then
               set_status done (job_error j) t_end
                 (append_log (map rstrip_newline lines) (set_running t_start j))
             else
               set_status error
                 (Some ("thermal_processor exited with code "
                        ++ str_of_int rc)%string) t_end
                 (append_log (map rstrip_newline lines) (set_running t_start j))
         end).
Proof.
  intros Hj. unfold run_job. rewrite Hj.
  destruct processor_present; cbn [negb].
  - destruct launch as [e | lines rc].
    + now rewrite !jobs_get_update_same, Hj.
    + destruct (rc =? 0)%Z; now rewrite !jobs_get_update_same, Hj.
  - now rewrite !jobs_get_update_same, Hj.
Qed.

(** [run_job] does nothing for an unknown job and touches no other job.
    For a known job it ends in [done] or [error], never in [queued] or
    [running]; it ends in [done] exactly when the processor is present,
    started and exited with status [0]; the lines the processor printed
    are appended to the log in order, without their newlines; the start
    and end times are recorded, the paths are kept, and the set of job
    identifiers is unchanged. *)
Theorem run_job_outcome (processor_present : bool) (launch : Launch)
    (t_start t_end : Q) (jobs : Jobs) (job_id : string) :
  let jobs' := run_job processor_present launch t_start t_end jobs job_id in
  let printed :=
    match launch with
    | Ran lines _ => if processor_present then map rstrip_newline lines else []
    | LaunchFailed _ => []
    end in
  let succeeded :=
    processor_present
    && match launch with Ran _ rc => (rc =? 0)%Z | LaunchFailed _ => false end in
  map fst jobs' = map fst jobs /\
  (forall other, other <> job_id -> jobs_get jobs' other = jobs_get jobs other) /\
  match jobs_get jobs job_id with
  | None => jobs' = jobs
  | Some j =>
      exists j',
        jobs_get jobs' job_id = Some j' /\
        job_status j' = (if succeeded then done else error) /\
        (if succeeded then job_error j' = job_error j
         else exists msg, job_error j' = Some msg) /\
        job_log j' = job_log j ++ printed /\
        started_at j' = Some t_start /\ finished_at j' = Some t_end /\
        input_path j' = input_path j /\ output_path j' = output_path j
  end.
Proof.
  cbn zeta. split; [| split].
  - unfold run_job. destruct (jobs_get jobs job_id); [| reflexivity].
    destruct processor_present; cbn [negb];
      [destruct launch as [e | lines rc]; [| destruct (rc =? 0)%Z] |];
      now rewrite !jobs_update_keys.
  - intros other Hne. unfold run_job.
    destruct (jobs_get jobs job_id); [| reflexivity].
    destruct processor_present; cbn [negb];
      [destruct launch as [e | lines rc]; [| destruct (rc =? 0)%Z] |];
      now rewrite !jobs_get_update_other by exact Hne.
  - destruct (jobs_get jobs job_id) as [j |] eqn:Hj.
    + eexists. split; [apply (run_job_entry _ _ _ _ _ _ Hj) |].
      destruct processor_present; cbn [negb andb];
        [destruct launch as [e | lines rc]; [| destruct (rc =? 0)%Z]
        | destruct launch ];
        cbn; rewrite ?app_nil_r; repeat split; eauto.
    + unfold run_job. now rewrite Hj.
Qed.




(** [download] refuses anything but a finished job: an unknown job is
    answered with 404, a job that is not [done] with 400 and its status,
    a [done] job whose file is gone with 500; the file is sent only for a
    [done] job, and it is that job's output. *)
Theorem download_only_when_done (file_exists : string -> bool) (jobs : Jobs)
    (job_id : string) :
  match download file_exists jobs job_id with
  | unknown_job_404 => jobs_get jobs job_id = None
  | not_ready_400 st =>
      st <> done /\ option_map job_status (jobs_get jobs job_id) = Some st
  | file_missing_500 =>
      exists j, jobs_get jobs job_id = Some j /\ job_status j = done /\
                file_exists (output_path j) = false
  | send_file_200 path =>
      exists j, jobs_get jobs job_id = Some j /\ job_status j = done /\
                path = output_path j /\ file_exists path = true
  end.
Proof.
  unfold download. destruct (jobs_get jobs job_id) as [j |]; [| reflexivity].
  destruct (job_status j) eqn:Es; cbn; rewrite ?Es;
    try (split; [discriminate | reflexivity]).
  destruct (file_exists (output_path j)) eqn:Ef; exists j; auto.
Qed.

(** ** binary32: zero opacity *)

Lemma opacity_zero_alpha (tg : spec_float) :
  finite32 tg = true -> exists s, F32.opacity F32.zero tg = S754_zero s.
Proof.
  destruct tg as [s | s | | s m e]; cbn [finite32]; try discriminate; intros _;
    eexists; vm_compute; reflexivity.
Qed.

Lemma mul_zero_right (x : spec_float) (s : bool) :
  finite32 x = true -> exists s', F32.mul x (S754_zero s) = S754_zero s'.
Proof.
  destruct x as [sx | sx | | sx m e]; cbn [finite32]; try discriminate; intros _;
    eexists; reflexivity.
Qed.

Lemma blend_keeps_channel (v : byte) (s s' : bool) :
  F32.out_u8
    (F32.add (F32.mul (F32.frame_f v) (F32.sub F32.one (S754_zero s)))
       (S754_zero s')) = v.
Proof. destruct v, s, s'; vm_compute; reflexivity. Qed.

Lemma blend_zero_opacity (v : byte) (heat : spec_float) (s : bool) :
  finite32 heat = true ->
  F32.out_u8 (F32.blend (F32.frame_f v) heat (S754_zero s)) = v.
Proof.
  intros Hf. unfold F32.blend.
  destruct (@mul_zero_right heat s Hf) as [s' E]. rewrite E.
  apply blend_keeps_channel.
Qed.

(** With [--alpha 0] and the overlay enabled, the frame handed to the
    encoder equals the input frame, whatever finite colours and finite
    gamma-corrected values the colour map saw: the opacity is zero and the
    blend returns every channel unchanged. *)
Theorem zero_alpha_frame_identical (frame : Frame)
    (color : nat -> nat -> spec_float * spec_float * spec_float)
    (tg : nat -> nat -> spec_float) :
  (forall r c,
      finite32 (fst (fst (color r c))) = true /\
      finite32 (snd (fst (color r c))) = true /\
      finite32 (snd (color r c)) = true /\
      finite32 (tg r c) = true) ->
  F32.out_frame_u8 false frame
    (fun r c => (color r c, F32.opacity F32.zero (tg r c)))
  = frame.
Proof.
  intros Hfin. unfold F32.out_frame_u8. apply mapi_from_id. intros r row.
  apply mapi_from_id. intros c [[b8 g8] r8]. cbn [fst snd].
  destruct (Hfin r c) as (Hr & Hg & Hb & Ht).
  destruct (@opacity_zero_alpha (tg r c) Ht) as [s Es]. rewrite Es.
  destruct (color r c) as [[r_h g_h] b_h]. cbn [fst snd] in *.
  unfold F32.out_pixel. now rewrite !blend_zero_opacity.
Qed.

Lemma zero_alpha_frame_identical_witness :
  F32.out_frame_u8 false black_frame
    (fun r c => (F32.ramp F32.one, F32.opacity F32.zero F32.one))
  = black_frame.
Proof.
  apply (@zero_alpha_frame_identical black_frame
           (fun _ _ => F32.ramp F32.one) (fun _ _ => F32.one)).
  intros r c. repeat split.
Defined.

(** ** Thresholds of a non-empty map *)

Lemma percentile_values_from_map_witness :
  In (fst (percentile_values 0.80 0.98 [0.1; 0.7; 0.3; 0.9; 0.5]))
     [0.1; 0.7; 0.3; 0.9; 0.5] /\
  (In (snd (percentile_values 0.80 0.98 [0.1; 0.7; 0.3; 0.9; 0.5]))
      [0.1; 0.7; 0.3; 0.9; 0.5] \/
   snd (percentile_values 0.80 0.98 [0.1; 0.7; 0.3; 0.9; 0.5])
   = fst (percentile_values 0.80 0.98 [0.1; 0.7; 0.3; 0.9; 0.5]) + 0.000001).
Proof.
  apply (@percentile_values_from_map 0.80 0.98 [0.1; 0.7; 0.3; 0.9; 0.5]).
  discriminate.
Defined.

(** ** Hotspots: the area band and what is emitted *)

Lemma candidates_In_iff (heat_map : list (list Q)) (labels : list (list nat))
    (num_labels : nat) (ambient maxC gamma min_frac max_frac : Q) (hs : Hotspot) :
  In hs (candidates heat_map labels num_labels ambient maxC gamma
           min_frac max_frac) <->
  exists label,
    (1 <= label < num_labels)%nat /\
    hotspot_of_label heat_map labels ambient maxC gamma min_frac max_frac label
    = Some hs.
Proof.
  unfold candidates. rewrite in_flat_map. split.
  - intros (label & Hl & Hin). apply in_seq in Hl. exists label.
    split; [lia |].
    destruct (hotspot_of_label _ _ _ _ _ _ _ _); [| destruct Hin].
    destruct Hin as [-> | []]. reflexivity.
  - intros (label & Hl & E). exists label. split; [apply in_seq; lia |].
    rewrite E. now left.
Qed.

(** C1 (as amended).  With the default fractions, a component is kept by
    the loop over labels exactly when its area lies between the integers
    [max(1, floor(1e-4 * total))] and [max(min_area, floor(0.25 * total))],
    both included.  Hence a component of at least one pixel whose area
    lies in [[1e-4 * total, 0.25 * total]] is kept; one whose area exceeds
    [0.25 * total] is dropped when the frame has at least four pixels; one
    whose area is below [floor(1e-4 * total)] is dropped.  The hotspots
    that pass are those of the labels [1 .. num_labels - 1] that are kept;
    the detector emits the 20 largest of them, largest first (all of them
    when there are at most 20), and nothing when the mask is empty; every
    emitted hotspot has its area between the two integer bounds. *)
Theorem area_filter_integer_band (cc : Labelling)
    (heat_map : list (list Q)) (labels : list (list nat))
    (thr ambient maxC gamma : Q) (label : nat) :
  let H := fst (shape heat_map) in
  let W := snd (shape heat_map) in
  let total := Z.of_nat (H * W) in
  let area := Z.of_nat (length (component labels H W label)) in
  let lo := Z.max 1 (total / 10000) in
  let hi := Z.max lo (total / 4) in
  let kept :=
    hotspot_of_label heat_map labels ambient maxC gamma
      default_min_frac default_max_frac label <> None in
  let mask := mask_of heat_map thr in
  let passing :=
    candidates heat_map (snd (cc mask)) (fst (cc mask)) ambient maxC gamma
      default_min_frac default_max_frac in
  let emitted :=
    find_hotspots_from_thr cc heat_map thr ambient maxC gamma
      default_min_frac default_max_frac default_max_boxes in
  (kept <-> (lo <= area <= hi)%Z) /\
  ((1 <= area)%Z /\
   inject_Z total * default_min_frac <= inject_Z area /\
   inject_Z area <= inject_Z total * default_max_frac -> kept) /\
  ((4 <= total)%Z /\ inject_Z total * default_max_frac < inject_Z area -> ~ kept) /\
  ((area < total / 10000)%Z -> ~ kept) /\
  (forall hs,
      In hs passing <->
      exists l, (1 <= l < fst (cc mask))%nat /\
                hotspot_of_label heat_map (snd (cc mask)) ambient maxC gamma
                  default_min_frac default_max_frac l = Some hs) /\
  (count_nonzero mask = 0%nat -> emitted = []) /\
  (count_nonzero mask <> 0%nat ->
   length emitted = Nat.min 20 (length passing) /\
   StronglySorted (desc pixels) emitted /\
   exists dropped,
     Permutation passing (emitted ++ dropped) /\
     forall hs hs', In hs emitted -> In hs' dropped ->
                    (pixels hs' <= pixels hs)%Z) /\
  Forall (fun hs => (lo <= pixels hs <= hi)%Z) emitted.
Proof.
  intros H W total area lo hi kept mask passing emitted.
  assert (Htotal : (0 <= total)%Z) by (unfold total; lia).
  destruct (default_bounds Htotal) as [Emin Emax].
  assert (Hkept : kept <-> (lo <= area <= hi)%Z).
  { unfold kept. rewrite hotspot_of_label_kept, area_kept_iff.
    fold H W total area. rewrite Emin, Emax. reflexivity. }
  split; [exact Hkept |].
  split.
  { intros (H1 & H2 & H3). apply Hkept.
    apply min_frac_le_iff in H2. apply max_frac_le_iff in H3.
    unfold lo, hi. Z.div_mod_to_equations. lia. }
  split.
  { intros (H1 & H2) Hk. apply Hkept in Hk. apply max_frac_lt_iff in H2.
    unfold lo, hi in Hk. Z.div_mod_to_equations. lia. }
  split.
  { intros H1 Hk. apply Hkept in Hk. unfold lo, hi in Hk. lia. }
  split; [intros hs; apply candidates_In_iff |].
  assert (Hem : emitted
                = if (count_nonzero mask =? 0)%nat then []
                  else firstn default_max_boxes (sort_desc pixels passing)).
  { unfold emitted, passing, find_hotspots_from_thr. fold mask.
    destruct (count_nonzero mask =? 0)%nat; [reflexivity |].
    now destruct (cc mask). }
  split.
  { intros E. rewrite Hem, E. reflexivity. }
  split.
  { intros Hne. apply Nat.eqb_neq in Hne. rewrite Hem, Hne.
    split; [now rewrite length_firstn, sort_desc_length |].
    split; [apply StronglySorted_firstn, sort_desc_sorted |].
    exists (skipn default_max_boxes (sort_desc pixels passing)). split.
    - rewrite firstn_skipn. apply sort_desc_perm.
    - intros hs hs' Hin Hin'.
      apply (StronglySorted_firstn_skipn default_max_boxes
               (sort_desc_sorted pixels passing) hs hs' Hin Hin'). }
  rewrite Forall_forall. intros hs Hin.
  apply find_hotspots_In in Hin. destruct Hin as (labels' & label' & Hsome).
  apply hotspot_of_label_Some in Hsome. destruct Hsome as (Hk & Hstats & _).
  apply area_kept_iff in Hk. fold H W total in Hk. rewrite Emin, Emax in Hk.
  unfold stats_of in Hstats. apply (f_equal snd) in Hstats. cbn [snd] in Hstats.
  fold H W in Hstats. rewrite Hstats. exact Hk.
Qed.

(** The warm square has 100 pixels, within the band of a frame of 4096
    pixels, and is kept. *)
Lemma area_filter_integer_band_witness :
  Z.of_nat (length (component (snd (single_region (mask_of heat_warm_square 0.5)))
                      64 64 1)) = 100%Z /\
  hotspot_of_label heat_warm_square
    (snd (single_region (mask_of heat_warm_square 0.5)))
    22 120 1.2 default_min_frac default_max_frac 1 <> None.
Proof.
  split; [vm_compute; reflexivity |].
  apply (proj1 (proj2 (@area_filter_integer_band single_region heat_warm_square
                         (snd (single_region (mask_of heat_warm_square 0.5)))
                         0.5 22 120 1.2 1))).
  split; [vm_compute; discriminate |].
  split; vm_compute; discriminate.
Defined.
